(** * Reverse Turing game: client components, storage schema and room engine

    A shallow embedding of the React client ([GameRoom], [ResultsDisplay],
    [Leaderboard]), of the relational schema ([backend/schema.sql]) and of
    the room state machine, together with the properties claimed of them.

    Conventions.
    - A JavaScript string is the list of its UTF-16 code units, so that
      [length] is JavaScript's [.length] and the unit a [maxLength]
      attribute counts.
    - Durations and counters handled with integer arithmetic in the source
      ([timeRemaining - 1], [timeRemaining > 0]) are integers ([Z]): the
      protocol's timeouts are whole seconds.  A JavaScript number agrees
      with the integer as long as it is whole and at most
      [Number.MAX_SAFE_INTEGER] in size; the statements that count seconds
      say so.  Other [number] fields, which the client only displays, are
      rationals ([Q]).
    - A component is a state record, one function per handler, and a [step]
      function that dispatches an event to its handler when the rendered
      view offers the element the event comes from. *)

From Stdlib Require Import ZArith QArith Qround List Ascii String.
From Stdlib Require Import DecimalString.
From stdpp Require Import base option list gmap strings.

Local Open Scope Z_scope.

(** ** JavaScript values *)

Module JS.

(** UTF-16 code units. *)
Definition jsstring := list N.

(** A string literal of the source (ASCII). *)
Definition lit (s : string) : jsstring :=
  map N_of_ascii (list_ascii_of_string s).

(** [a === b] on strings. *)
Definition str_eqb (a b : jsstring) : bool := bool_decide (a = b).

(** ECMAScript [WhiteSpace] and [LineTerminator] code points, the ones
    [String.prototype.trim] strips.  All lie in the basic plane. *)
Definition is_white_space (c : N) : bool :=
  ((c =? 0x0009) || (c =? 0x000A) || (c =? 0x000B) || (c =? 0x000C)
   || (c =? 0x000D) || (c =? 0x0020) || (c =? 0x00A0) || (c =? 0x1680)
   || ((0x2000 <=? c) && (c <=? 0x200A))
   || (c =? 0x2028) || (c =? 0x2029) || (c =? 0x202F) || (c =? 0x205F)
   || (c =? 0x3000) || (c =? 0xFEFF))%N.

Fixpoint trim_start (s : jsstring) : jsstring :=
  match s with
  | [] => []
  | c :: s' => if is_white_space c then trim_start s' else s
  end.

Definition trim_end (s : jsstring) : jsstring :=
  rev (trim_start (rev s)).

(** [s.trim()] *)
Definition trim (s : jsstring) : jsstring := trim_end (trim_start s).

(** Truthiness of a string: every string but the empty one. *)
Definition truthy_str (s : jsstring) : bool :=
  match s with [] => false | _ :: _ => true end.

(** Truthiness of a possibly null or undefined string. *)
Definition truthy_opt_str (o : option jsstring) : bool :=
  match o with Some s => truthy_str s | None => false end.

(** [v || d] for an optional integer field [v]: [undefined] and [0] are
    falsy. *)
Definition num_or (v : option Z) (d : Z) : Z :=
  match v with
  | Some n => if n =? 0 then d else n
  | None => d
  end.

(** [v || d] for a possibly null or undefined string: the empty string is
    falsy. *)
Definition str_or (v : option jsstring) (d : jsstring) : jsstring :=
  match v with
  | Some s => if truthy_str s then s else d
  | None => d
  end.

(** [Number.MAX_SAFE_INTEGER]: up to it (and down to its opposite) every
    integer is a number of its own, and adding or subtracting 1 is exact. *)
Definition MAX_SAFE_INTEGER : Z := 2 ^ 53 - 1.

(** Values of a JSON payload (arrays, which [interface Results] has none
    of, are left out). *)
#[warnings="-register-all"]
Inductive jsval : Type :=
| JUndefined
| JNull
| JBool (b : bool)
| JNum (q : Q)
| JStr (s : jsstring)
| JObj (fields : gmap string jsval).

(** Property access [v.k]: [undefined] on an object without the
    property; an access on anything else is not modelled ([None]). *)
Definition get (k : string) (v : jsval) : option jsval :=
  match v with
  | JObj m => Some (default JUndefined (m !! k))
  | _ => None
  end.

End JS.

(** ** [ResultsDisplay]: the results panel *)

Module ResultsDisplay.
Import JS.

(** [interface Results] and the object types nested in it. *)
Record Verdict := {
  human_prob : Q;
  reasoning : jsstring
}.

Record JudgeVerdict := {
  human : Verdict;
  ai : Verdict;
  correct : bool
}.

Record PlayerVotes := {
  left : Q;
  right : Q
}.

Record Results := {
  prompt : jsstring;
  left_response : jsstring;
  right_response : jsstring;
  left_is : jsstring;
  right_is : jsstring;
  judge_verdict : JudgeVerdict;
  player_votes : PlayerVotes;
  player_accuracy : Q;
  correct_votes : Q;
  total_votes : Q
}.

(** What the component renders.  A response card has its heading, the
    response text and the judge's verdict on it; the percentages are kept
    as numbers (the source prints them with [toFixed(1)]). *)
Record Card := {
  heading : string;
  text : jsstring;
  verdict_percent : Q;
  verdict_reasoning : jsstring
}.

Record View := {
  prompt_box : jsstring;
  human_card : Card;
  ai_card : Card;
  judge_accuracy : bool;
  player_accuracy_percent : Q;
  correct_over_total : Q * Q;
  votes_A : Q;
  votes_B : Q
}.

Definition humanResponse (results : Results) : jsstring :=
  if str_eqb (left_is results) (lit "human")
  then left_response results else right_response results.

Definition aiResponse (results : Results) : jsstring :=
  if str_eqb (left_is results) (lit "ai")
  then left_response results else right_response results.

Definition ResultsDisplay (results : Results) : View :=
  {| prompt_box := prompt results;
     human_card :=
       {| heading := "Human Response";
          text := humanResponse results;
          verdict_percent :=
            (human_prob (human (judge_verdict results)) * 100)%Q;
          verdict_reasoning := reasoning (human (judge_verdict results)) |};
     ai_card :=
       {| heading := "AI Response";
          text := aiResponse results;
          verdict_percent :=
            (human_prob (ai (judge_verdict results)) * 100)%Q;
          verdict_reasoning := reasoning (ai (judge_verdict results)) |};
     judge_accuracy := correct (judge_verdict results);
     player_accuracy_percent := (player_accuracy results * 100)%Q;
     correct_over_total := (correct_votes results, total_votes results);
     votes_A := left (player_votes results);
     votes_B := right (player_votes results) |}.

(** The payload says which side is whose: one is ['human'], the other
    ['ai']. *)
Definition roles_assigned (li ri : jsstring) : Prop :=
  (li = lit "human" ∧ ri = lit "ai") ∨ (li = lit "ai" ∧ ri = lit "human").

(** A payload with the given roles and two different texts. *)
Definition probe (li ri : jsstring) : Results :=
  {| prompt := []; left_response := lit "L"; right_response := lit "R";
     left_is := li; right_is := ri;
     judge_verdict :=
       {| human := {| human_prob := 0; reasoning := [] |};
          ai := {| human_prob := 0; reasoning := [] |};
          correct := false |};
     player_votes := {| left := 0; right := 0 |};
     player_accuracy := 0; correct_votes := 0; total_votes := 0 |}.

(** *** The interface as a shape of payloads

    The declared types of the source, as data: a payload conforms to an
    object type when it is an object holding a conforming value under every
    declared property. *)
#[warnings="-register-all"]
Inductive tstype : Type :=
| TString
| TNumber
| TBoolean
| TObject (props : list (string * tstype)).

Fixpoint conforms (t : tstype) (v : jsval) : bool :=
  match t, v with
  | TString, JStr _ => true
  | TNumber, JNum _ => true
  | TBoolean, JBool _ => true
  | TObject props, JObj m =>
      forallb (fun p => match m !! fst p with
                        | Some x => conforms (snd p) x
                        | None => false
                        end) props
  | _, _ => false
  end.

Definition Verdict_interface : tstype :=
  TObject [("human_prob", TNumber); ("reasoning", TString)].

Definition Results_interface : tstype :=
  TObject
    [("prompt", TString);
     ("left_response", TString);
     ("right_response", TString);
     ("left_is", TString);
     ("right_is", TString);
     ("judge_verdict",
       TObject [("human", Verdict_interface);
                ("ai", Verdict_interface);
                ("correct", TBoolean)]);
     ("player_votes", TObject [("left", TNumber); ("right", TNumber)]);
     ("player_accuracy", TNumber);
     ("correct_votes", TNumber);
     ("total_votes", TNumber)].

(** Reading a payload at the interface, each property expected with its
    declared type: this gives the typed record of a payload that conforms.
    (Nothing checks the interface when the page runs; what the panel does
    with any payload is [render_payload] below.) *)
Definition get_str (k : string) (v : jsval) : option jsstring :=
  match get k v with Some (JStr s) => Some s | _ => None end.

Definition get_num (k : string) (v : jsval) : option Q :=
  match get k v with Some (JNum q) => Some q | _ => None end.

Definition get_bool (k : string) (v : jsval) : option bool :=
  match get k v with Some (JBool b) => Some b | _ => None end.

Definition get_obj (k : string) (v : jsval) : option jsval :=
  match get k v with Some (JObj m) => Some (JObj m) | _ => None end.

(** [v.k1.k2...] *)
Fixpoint get_path (ks : list string) (v : jsval) : option jsval :=
  match ks with
  | [] => Some v
  | k :: ks' => get k v ≫= get_path ks'
  end.

Definition to_Verdict (v : jsval) : option Verdict :=
  p ← get_num "human_prob" v;
  r ← get_str "reasoning" v;
  Some {| human_prob := p; reasoning := r |}.

Definition to_JudgeVerdict (v : jsval) : option JudgeVerdict :=
  h ← get_obj "human" v ≫= to_Verdict;
  a ← get_obj "ai" v ≫= to_Verdict;
  c ← get_bool "correct" v;
  Some {| human := h; ai := a; correct := c |}.

Definition to_PlayerVotes (v : jsval) : option PlayerVotes :=
  l ← get_num "left" v;
  r ← get_num "right" v;
  Some {| left := l; right := r |}.

Definition to_Results (v : jsval) : option Results :=
  p ← get_str "prompt" v;
  lr ← get_str "left_response" v;
  rr ← get_str "right_response" v;
  li ← get_str "left_is" v;
  ri ← get_str "right_is" v;
  jv ← get_obj "judge_verdict" v ≫= to_JudgeVerdict;
  pv ← get_obj "player_votes" v ≫= to_PlayerVotes;
  pa ← get_num "player_accuracy" v;
  cv ← get_num "correct_votes" v;
  tv ← get_num "total_votes" v;
  Some {| prompt := p; left_response := lr; right_response := rr;
          left_is := li; right_is := ri; judge_verdict := jv;
          player_votes := pv; player_accuracy := pa;
          correct_votes := cv; total_votes := tv |}.

(** *** The panel on a payload as it arrives

    The types are gone when the page runs: the panel reads whatever the
    server sent with the property accesses of the source. *)

(** [v.k], for the property names the panel reads: a [TypeError] (here
    [None]) on [null] and [undefined], [undefined] on a value without the
    property. *)
Definition read (k : string) (v : jsval) : option jsval :=
  match v with
  | JUndefined | JNull => None
  | JObj m => Some (default JUndefined (m !! k))
  | JBool _ | JNum _ | JStr _ => Some JUndefined
  end.

(** A value between braces in the markup: a string or a number is text, a
    boolean, [null] or [undefined] is nothing, and an object makes React
    throw. *)
Definition child (v : jsval) : option jsval :=
  match v with
  | JObj _ => None
  | _ => Some v
  end.

(** The operand of [* 100]: converting an object to a number goes through
    its [toString], and throws when a property of the payload hides it. *)
Definition number_operand (v : jsval) : option jsval :=
  match v with
  | JObj m => if bool_decide (is_Some (m !! "toString")) then None else Some v
  | _ => Some v
  end.

(** Truthiness. *)
Definition truthy (v : jsval) : bool :=
  match v with
  | JUndefined | JNull => false
  | JBool b => b
  | JNum q => negb (Qeq_bool q 0)
  | JStr s => truthy_str s
  | JObj _ => true
  end.

(** [v === 'text'] *)
Definition is_str (v : jsval) (text : jsstring) : bool :=
  match v with
  | JStr s => str_eqb s text
  | _ => false
  end.

(** What is on the page, as values of the payload: the texts shown, and for
    each percentage the value that is multiplied by 100. *)
Record RawCard := {
  raw_text : jsval;
  raw_prob : jsval;
  raw_reasoning : jsval
}.

Record RawView := {
  raw_prompt : jsval;
  raw_human : RawCard;
  raw_ai : RawCard;
  raw_judge_mark : bool;
  raw_accuracy : jsval;
  raw_correct_votes : jsval;
  raw_total_votes : jsval;
  raw_votes_A : jsval;
  raw_votes_B : jsval
}.

(** [ResultsDisplay] on any payload; [None] when rendering throws. *)
Definition render_payload (results : jsval) : option RawView :=
  li ← read "left_is" results;
  lr ← read "left_response" results;
  rr ← read "right_response" results;
  let humanResponse := if is_str li (lit "human") then lr else rr in
  let aiResponse := if is_str li (lit "ai") then lr else rr in
  p ← read "prompt" results ≫= child;
  ht ← child humanResponse;
  jv ← read "judge_verdict" results;
  h ← read "human" jv;
  hp ← read "human_prob" h ≫= number_operand;
  hr ← read "reasoning" h ≫= child;
  at_ ← child aiResponse;
  a ← read "ai" jv;
  ap ← read "human_prob" a ≫= number_operand;
  ar ← read "reasoning" a ≫= child;
  c ← read "correct" jv;
  pa ← read "player_accuracy" results ≫= number_operand;
  cv ← read "correct_votes" results ≫= child;
  tv ← read "total_votes" results ≫= child;
  pv ← read "player_votes" results;
  va ← read "left" pv ≫= child;
  vb ← read "right" pv ≫= child;
  Some {| raw_prompt := p;
          raw_human := {| raw_text := ht; raw_prob := hp;
                          raw_reasoning := hr |};
          raw_ai := {| raw_text := at_; raw_prob := ap;
                       raw_reasoning := ar |};
          raw_judge_mark := truthy c;
          raw_accuracy := pa;
          raw_correct_votes := cv;
          raw_total_votes := tv;
          raw_votes_A := va;
          raw_votes_B := vb |}.

(** The page of a typed record, in the same terms. *)
Definition raw_of (r : Results) : RawView :=
  {| raw_prompt := JStr (prompt r);
     raw_human :=
       {| raw_text := JStr (humanResponse r);
          raw_prob := JNum (human_prob (human (judge_verdict r)));
          raw_reasoning := JStr (reasoning (human (judge_verdict r))) |};
     raw_ai :=
       {| raw_text := JStr (aiResponse r);
          raw_prob := JNum (human_prob (ai (judge_verdict r)));
          raw_reasoning := JStr (reasoning (ai (judge_verdict r))) |};
     raw_judge_mark := correct (judge_verdict r);
     raw_accuracy := JNum (player_accuracy r);
     raw_correct_votes := JNum (correct_votes r);
     raw_total_votes := JNum (total_votes r);
     raw_votes_A := JNum (left (player_votes r));
     raw_votes_B := JNum (right (player_votes r)) |}.

(** Neither [null] nor [undefined]. *)
Definition present (v : jsval) : Prop := v ≠ JUndefined ∧ v ≠ JNull.

(** A payload with neither [prompt] nor [right_is]. *)
Definition payload_without_prompt : jsval :=
  let verdict (p : Q) (why : string) :=
    JObj (list_to_map [("human_prob", JNum p); ("reasoning", JStr (lit why))])
  in
  JObj (list_to_map
    [("left_response", JStr (lit "wet, mostly"));
     ("right_response", JStr (lit "Rain is liquid precipitation."));
     ("left_is", JStr (lit "human"));
     ("judge_verdict",
       JObj (list_to_map
         [("human", verdict (7 # 10) "terse");
          ("ai", verdict (2 # 10) "encyclopedic");
          ("correct", JBool true)]));
     ("player_votes",
       JObj (list_to_map [("left", JNum 2); ("right", JNum 1)]));
     ("player_accuracy", JNum (2 # 3));
     ("correct_votes", JNum 2);
     ("total_votes", JNum 3)]).

(** A payload with nothing but the three objects the panel reads into. *)
Definition bare_payload : jsval :=
  JObj (list_to_map
    [("judge_verdict",
       JObj (list_to_map [("human", JObj ∅); ("ai", JObj ∅)]));
     ("player_votes", JObj ∅)]).

(** A payload of the shape the server announces. *)
Definition sample_payload : jsval :=
  let verdict (p : Q) (why : string) :=
    JObj (list_to_map [("human_prob", JNum p); ("reasoning", JStr (lit why))])
  in
  JObj (list_to_map
    [("prompt", JStr (lit "Describe rain."));
     ("left_response", JStr (lit "wet, mostly"));
     ("right_response", JStr (lit "Rain is liquid precipitation."));
     ("left_is", JStr (lit "human"));
     ("right_is", JStr (lit "ai"));
     ("judge_verdict",
       JObj (list_to_map
         [("human", verdict (7 # 10) "terse");
          ("ai", verdict (2 # 10) "encyclopedic");
          ("correct", JBool true)]));
     ("player_votes",
       JObj (list_to_map [("left", JNum 2); ("right", JNum 1)]));
     ("player_accuracy", JNum (2 # 3));
     ("correct_votes", JNum 2);
     ("total_votes", JNum 3)]).

(** The same payload with another [right_is]. *)
Definition with_right_is (r : Results) (ri : jsstring) : Results :=
  {| prompt := prompt r; left_response := left_response r;
     right_response := right_response r; left_is := left_is r;
     right_is := ri; judge_verdict := judge_verdict r;
     player_votes := player_votes r; player_accuracy := player_accuracy r;
     correct_votes := correct_votes r; total_votes := total_votes r |}.

End ResultsDisplay.

(** ** [GameRoom]: the game screen *)

Module GameRoom.
Import JS.

(** The values [gameState] takes: ['waiting'], ['responding'], ['judging'],
    ['voting'], ['results']. *)
Inductive GameState := waiting | responding | judging | voting | results_.

#[global] Instance GameState_eq_dec : EqDecision GameState.
Proof. solve_decision. Defined.

(** ['left' | 'right'] *)
Inductive Vote := vote_left | vote_right.

#[global] Instance Vote_eq_dec : EqDecision Vote.
Proof. solve_decision. Defined.

(** What the hooks hand to the component: the socket of [useSocket] (may be
    null), the route parameter [roomId] (may be undefined) and the room type
    kept in local storage (may be missing). *)
Record Props := {
  socket : bool;
  roomId : option jsstring;
  selectedRoomType : option jsstring
}.

(** The component's [useState] cells. *)
Record State := {
  currentPrompt : jsstring;
  userResponse : jsstring;
  gameState : GameState;
  results : option ResultsDisplay.Results;
  leftResponse : jsstring;
  rightResponse : jsstring;
  playerCount : Z;
  timeRemaining : Z;
  selectedVote : option Vote
}.

Definition init : State :=
  {| currentPrompt := []; userResponse := []; gameState := waiting;
     results := None; leftResponse := []; rightResponse := [];
     playerCount := 0; timeRemaining := 0; selectedVote := None |}.

(** Messages the server sends, with their payloads. *)
Inductive ServerEvent :=
| player_joined (player_count : Z)
| new_round (prompt : jsstring) (timeout : option Z)
| judging_started
| voting_phase (left_response right_response : jsstring) (timeout : option Z)
| round_results (data : ResultsDisplay.Results)
| error (message : jsstring).

(** What the user can do on the page, and the one-second timer. *)
Inductive Event :=
| Server (e : ServerEvent)
| ChangeResponse (value : jsstring)
| ClickSubmitResponse
| ClickLeftCard
| ClickRightCard
| ClickPlayAnotherRound
| Tick.

(** What a handler does to the outside: [socket.emit] and [alert]. *)
Inductive Effect :=
| join_room (room_id : option jsstring) (room_type : jsstring)
| leave_room (room_id : option jsstring)
| submit_response (room_id : option jsstring) (response : jsstring)
| submit_vote (room_id : option jsstring) (vote : Vote)
| request_new_round (room_id : option jsstring)
| alert (message : jsstring).

(** The first effect registers the listeners only when there are a socket
    and a room id: [if (!socket || !roomId) return]. *)
Definition listening (p : Props) : bool :=
  socket p && truthy_opt_str (roomId p).

(** On mount that effect joins the room. *)
Definition mount (p : Props) : State * list Effect :=
  (init,
   if listening p
   then [join_room (roomId p) (str_or (selectedRoomType p) (lit "general"))]
   else []).

(** Its cleanup leaves it. *)
Definition unmount (p : Props) : list Effect :=
  if listening p then [leave_room (roomId p)] else [].

(** *** Socket listeners *)

Definition on_server (s : State) (e : ServerEvent) : State * list Effect :=
  match e with
  | player_joined n =>
      ({| currentPrompt := currentPrompt s; userResponse := userResponse s;
          gameState := gameState s; results := results s;
          leftResponse := leftResponse s; rightResponse := rightResponse s;
          playerCount := n; timeRemaining := timeRemaining s;
          selectedVote := selectedVote s |}, [])
  | new_round prompt timeout =>
      ({| currentPrompt := prompt; userResponse := [];
          gameState := responding; results := results s;
          leftResponse := leftResponse s; rightResponse := rightResponse s;
          playerCount := playerCount s; timeRemaining := num_or timeout 90;
          selectedVote := selectedVote s |}, [])
  | judging_started =>
      ({| currentPrompt := currentPrompt s; userResponse := userResponse s;
          gameState := judging; results := results s;
          leftResponse := leftResponse s; rightResponse := rightResponse s;
          playerCount := playerCount s; timeRemaining := timeRemaining s;
          selectedVote := selectedVote s |}, [])
  | voting_phase l r timeout =>
      ({| currentPrompt := currentPrompt s; userResponse := userResponse s;
          gameState := voting; results := results s;
          leftResponse := l; rightResponse := r;
          playerCount := playerCount s; timeRemaining := num_or timeout 30;
          selectedVote := None |}, [])
  | round_results data =>
      ({| currentPrompt := currentPrompt s; userResponse := userResponse s;
          gameState := results_; results := Some data;
          leftResponse := leftResponse s; rightResponse := rightResponse s;
          playerCount := playerCount s; timeRemaining := timeRemaining s;
          selectedVote := selectedVote s |}, [])
  | error message => (s, [alert message])
  end.

(** *** Handlers *)

Definition setUserResponse (s : State) (v : jsstring) : State :=
  {| currentPrompt := currentPrompt s; userResponse := v;
     gameState := gameState s; results := results s;
     leftResponse := leftResponse s; rightResponse := rightResponse s;
     playerCount := playerCount s; timeRemaining := timeRemaining s;
     selectedVote := selectedVote s |}.

Definition setGameState (s : State) (g : GameState) : State :=
  {| currentPrompt := currentPrompt s; userResponse := userResponse s;
     gameState := g; results := results s;
     leftResponse := leftResponse s; rightResponse := rightResponse s;
     playerCount := playerCount s; timeRemaining := timeRemaining s;
     selectedVote := selectedVote s |}.

Definition setSelectedVote (s : State) (v : option Vote) : State :=
  {| currentPrompt := currentPrompt s; userResponse := userResponse s;
     gameState := gameState s; results := results s;
     leftResponse := leftResponse s; rightResponse := rightResponse s;
     playerCount := playerCount s; timeRemaining := timeRemaining s;
     selectedVote := v |}.

Definition setTimeRemaining (s : State) (t : Z) : State :=
  {| currentPrompt := currentPrompt s; userResponse := userResponse s;
     gameState := gameState s; results := results s;
     leftResponse := leftResponse s; rightResponse := rightResponse s;
     playerCount := playerCount s; timeRemaining := t;
     selectedVote := selectedVote s |}.

Definition submitResponse (p : Props) (s : State) : State * list Effect :=
  if negb (socket p) || negb (truthy_str (trim (userResponse s)))
  then (s, [])
  else (setGameState s waiting,
        [submit_response (roomId p) (userResponse s)]).

Definition submitVote (p : Props) (s : State) (vote : Vote)
  : State * list Effect :=
  if negb (socket p) then (s, [])
  else (setSelectedVote s (Some vote), [submit_vote (roomId p) vote]).

Definition requestNewRound (p : Props) (s : State) : State * list Effect :=
  if negb (socket p) then (s, [])
  else (setGameState s waiting, [request_new_round (roomId p)]).

(** [onClick={() => !selectedVote && submitVote(vote)}] *)
Definition onClickCard (p : Props) (s : State) (vote : Vote)
  : State * list Effect :=
  match selectedVote s with
  | None => submitVote p s vote
  | Some _ => (s, [])
  end.

(** The countdown effect: while [timeRemaining > 0] a one-second timeout is
    pending, and its callback stores [timeRemaining - 1].  The cell holds a
    JavaScript number; with an integer in its place this is the source on
    the whole numbers from [- MAX_SAFE_INTEGER] to [MAX_SAFE_INTEGER], where
    the subtraction is exact ([tick_on_number] below has the others). *)
Definition countdown_armed (s : State) : bool := 0 <? timeRemaining s.

Definition on_tick (s : State) : State :=
  setTimeRemaining s (timeRemaining s - 1).

(** *** The rendered page *)

(** The response box of the responding phase. *)
Definition maxLength : nat := 500.

(** [disabled={!userResponse.trim()}] *)
Definition submit_disabled (s : State) : bool :=
  negb (truthy_str (trim (userResponse s))).

(** The time display, minutes and seconds, present only while
    [timeRemaining > 0]. *)
Definition time_display (s : State) : option (Z * Z) :=
  if 0 <? timeRemaining s
  then Some (timeRemaining s / 60, timeRemaining s mod 60)
  else None.

Inductive Panel :=
| WaitingPanel
| ResponsePanel (prompt value : jsstring) (disabled : bool)
| JudgingPanel
| VotingPanel (responseA responseB : jsstring) (yourVote : option Vote)
| ResultsPanel (view : ResultsDisplay.View)
| NoPanel.

Definition panel (s : State) : Panel :=
  match gameState s with
  | waiting => WaitingPanel
  | responding =>
      ResponsePanel (currentPrompt s) (userResponse s) (submit_disabled s)
  | judging => JudgingPanel
  | voting => VotingPanel (leftResponse s) (rightResponse s) (selectedVote s)
  | results_ =>
      match results s with
      | Some r => ResultsPanel (ResultsDisplay.ResultsDisplay r)
      | None => NoPanel
      end
  end.

(** *** The results panel on the payload as it arrives

    The cell is [useState<any>]: [setResults(data)] keeps the payload of
    [round_results] unchecked, and the page hands it to the panel whenever
    it is truthy, [results && (<ResultsDisplay results={results} />)].
    in the results state.  [None]: no panel, or rendering throws. *)
Definition results_panel (data : jsval) : option ResultsDisplay.RawView :=
  if ResultsDisplay.truthy data
  then ResultsDisplay.render_payload data
  else None.

(** *** Dispatch

    An event reaches its handler when its source exists: a server message
    when the listeners are registered, a user action when the element is on
    the page (and, for the button, enabled; for the text box, within
    [maxLength]), a tick when the timeout is pending. *)
Definition enabled (p : Props) (s : State) (e : Event) : bool :=
  match e with
  | Server _ => listening p
  | ChangeResponse v =>
      bool_decide (gameState s = responding)
      && bool_decide (length v ≤ maxLength)%nat
  | ClickSubmitResponse =>
      bool_decide (gameState s = responding) && negb (submit_disabled s)
  | ClickLeftCard | ClickRightCard => bool_decide (gameState s = voting)
  | ClickPlayAnotherRound =>
      bool_decide (gameState s = results_)
      && bool_decide (is_Some (results s))
  | Tick => countdown_armed s
  end.

Definition handle (p : Props) (s : State) (e : Event) : State * list Effect :=
  match e with
  | Server m => on_server s m
  | ChangeResponse v => (setUserResponse s v, [])
  | ClickSubmitResponse => submitResponse p s
  | ClickLeftCard => onClickCard p s vote_left
  | ClickRightCard => onClickCard p s vote_right
  | ClickPlayAnotherRound => requestNewRound p s
  | Tick => (on_tick s, [])
  end.

Definition step (p : Props) (s : State) (e : Event) : State * list Effect :=
  if enabled p s e then handle p s e else (s, []).

(** A session: the events in order, the effects they cause collected. *)
Fixpoint run (p : Props) (s : State) (es : list Event)
  : State * list Effect :=
  match es with
  | [] => (s, [])
  | e :: es' =>
      let '(s1, out1) := step p s e in
      let '(s2, out2) := run p s1 es' in
      (s2, out1 ++ out2)
  end.

Definition is_voting_phase (e : Event) : bool :=
  match e with Server (voting_phase _ _ _) => true | _ => false end.

Definition votes_of (out : list Effect) : list Vote :=
  omap (fun x => match x with submit_vote _ v => Some v | _ => None end) out.

Definition responses_of (out : list Effect) : list jsstring :=
  omap (fun x => match x with submit_response _ r => Some r | _ => None end)
       out.

(** The countdown a phase starts with, in the words of the design document:
    the payload's timeout, or the phase's default when the field is
    absent.  To be compared with [JS.num_or], which the handlers use. *)
Definition countdown_per_spec (timeout : option Z) (dflt : Z) : Z :=
  match timeout with
  | Some t => t
  | None => dflt
  end.

(** A response the page may send: some character of it is not white space,
    and it fits the text box. *)
Definition sendable (r : jsstring) : Prop :=
  (∃ c, c ∈ r ∧ is_white_space c = false) ∧ (length r ≤ maxLength)%nat.

(** *** The countdown and the numbers it is given

    [timeRemaining] is an integer here: the model is exact for timeouts
    that are whole seconds up to [MAX_SAFE_INTEGER], which is what the
    statements about ticks ask for. *)

(** The timeouts a server message carries are whole seconds, not negative
    and held exactly. *)
Definition whole_seconds (e : Event) : Prop :=
  match e with
  | Server (new_round _ (Some t)) | Server (voting_phase _ _ (Some t)) =>
      0 ≤ t ≤ MAX_SAFE_INTEGER
  | _ => True
  end.

(** The countdown effect on a number that need not be whole, with exact
    arithmetic: a timeout is pending while the number is positive, and its
    callback takes one off. *)
Definition tick_on_number (t : Q) : Q :=
  if Qlt_le_dec 0 t then (t - 1)%Q else t.

(** *** Reading a session *)

Definition is_new_round (e : Event) : bool :=
  match e with Server (new_round _ _) => true | _ => false end.

Definition is_round_results (e : Event) : bool :=
  match e with Server (round_results _) => true | _ => false end.

Definition new_round_requests_of (out : list Effect)
  : list (option jsstring) :=
  omap (fun x => match x with request_new_round r => Some r | _ => None end)
       out.

(** The [room_id] a [socket.emit] carries; an [alert] is no emission. *)
Definition emitted_room (x : Effect) : option (option jsstring) :=
  match x with
  | join_room r _ | leave_room r | submit_response r _ | submit_vote r _
  | request_new_round r => Some r
  | alert _ => None
  end.

(** [n] seconds going by with nothing else happening. *)
Definition seconds (n : nat) : list Event := repeat Tick n.

(** Where an effect can come from: the panel that must be showing, the
    event that causes it, and what it carries. *)
Definition origin_ok (p : Props) (s : State) (e : Event) (x : Effect)
  : Prop :=
  match x with
  | submit_response r text =>
      gameState s = responding ∧ e = ClickSubmitResponse
      ∧ text = userResponse s ∧ r = roomId p
  | submit_vote r v =>
      gameState s = voting ∧ selectedVote s = None ∧ r = roomId p
      ∧ ((e = ClickLeftCard ∧ v = vote_left)
         ∨ (e = ClickRightCard ∧ v = vote_right))
  | request_new_round r =>
      gameState s = results_ ∧ e = ClickPlayAnotherRound ∧ r = roomId p
  | alert m => e = Server (error m)
  | join_room _ _ | leave_room _ => False
  end.

End GameRoom.

(** ** [Leaderboard]: the ranking page *)

Module Leaderboard.
Import JS.

Record LeaderboardEntry := {
  rank : Z;
  username : jsstring;
  deception_score : Q;
  detection_score : Q;
  overall_score : Q;
  games_played : Z
}.

Record State := {
  leaderboard : list LeaderboardEntry;
  period : jsstring;
  roomType : option jsstring;
  loading : bool
}.

(** A [URLSearchParams] object is its list of name-value pairs. *)
Definition URLSearchParams := list (jsstring * jsstring).

(** A [fetch] of [http://localhost:5000/api/leaderboard?${params}]. *)
Record Request := {
  endpoint : string;
  params : URLSearchParams
}.

(** The [value]s of the [option]s of the two [select] elements. *)
Definition period_options : list jsstring :=
  [lit "daily"; lit "weekly"; lit "monthly"; lit "all_time"].

Definition roomType_options : list jsstring :=
  [lit ""; lit "poetry"; lit "debate"; lit "personal"; lit "creative"].

Inductive Event :=
| ChangePeriod (value : jsstring)
| ChangeRoomType (value : jsstring)
| FetchResolved (data : option (list LeaderboardEntry))
| FetchRejected.

Definition setLoading (s : State) (b : bool) : State :=
  {| leaderboard := leaderboard s; period := period s;
     roomType := roomType s; loading := b |}.

Definition setLeaderboard (s : State) (l : list LeaderboardEntry) : State :=
  {| leaderboard := l; period := period s;
     roomType := roomType s; loading := loading s |}.

Definition setPeriod (s : State) (v : jsstring) : State :=
  {| leaderboard := leaderboard s; period := v;
     roomType := roomType s; loading := loading s |}.

Definition setRoomType (s : State) (v : option jsstring) : State :=
  {| leaderboard := leaderboard s; period := period s;
     roomType := v; loading := loading s |}.

(** [fetchLeaderboard], up to the [await]: the request it issues. *)
Definition fetchLeaderboard (s : State) : State * list Request :=
  let params0 := [(lit "period", period s)] in
  let params1 :=
    match roomType s with
    | Some t => if truthy_str t then params0 ++ [(lit "room_type", t)]
                else params0
    | None => params0
    end in
  (setLoading s true,
   [{| endpoint := "http://localhost:5000/api/leaderboard";
       params := params1 |}]).

(** The effect with dependencies [[period, roomType]]: it runs after the
    first render and after every render in which one of them changed. *)
Definition effect (before after : State) : State * list Request :=
  if bool_decide (period before = period after)
     && bool_decide (roomType before = roomType after)
  then (after, [])
  else fetchLeaderboard after.

Definition init : State :=
  {| leaderboard := []; period := lit "all_time"; roomType := None;
     loading := true |}.

Definition mount : State * list Request := fetchLeaderboard init.

(** What the room-type [select] shows: [value={roomType || ''}]. *)
Definition roomType_select_value (s : State) : jsstring :=
  str_or (roomType s) (lit "").

(** A [select] reports one of its options. *)
Definition enabled (e : Event) : bool :=
  match e with
  | ChangePeriod v => bool_decide (v ∈ period_options)
  | ChangeRoomType v => bool_decide (v ∈ roomType_options)
  | FetchResolved _ | FetchRejected => true
  end.

Definition handle (s : State) (e : Event) : State :=
  match e with
  | ChangePeriod v => setPeriod s v
  | ChangeRoomType v => setRoomType s (if truthy_str v then Some v else None)
  | FetchResolved data => setLoading (setLeaderboard s (default [] data)) false
  | FetchRejected => setLoading s false
  end.

Definition step (s : State) (e : Event) : State * list Request :=
  if enabled e then effect s (handle s e) else (s, []).

Fixpoint run (s : State) (es : list Event) : State * list Request :=
  match es with
  | [] => (s, [])
  | e :: es' =>
      let '(s1, out1) := step s e in
      let '(s2, out2) := run s1 es' in
      (s2, out1 ++ out2)
  end.

(** The value of a parameter of a request, if it has one. *)
Definition param (name : jsstring) (r : Request) : option jsstring :=
  snd <$> find (fun kv => str_eqb (fst kv) name) (params r).

(** The selections are among the options offered, and no room type is kept
    for "All Rooms". *)
Definition consistent (s : State) : Prop :=
  period s ∈ period_options
  ∧ ∀ t, roomType s = Some t → t ∈ roomType_options ∧ truthy_str t = true.

(** A request agrees with the selections [s] shows: it carries the selected
    period, which is one of the four, and it carries a room type, the
    selected one, exactly when the room-type selection is not "All Rooms". *)
Definition request_ok (s : State) (r : Request) : Prop :=
  param (lit "period") r = Some (period s)
  ∧ period s ∈ period_options
  ∧ (is_Some (param (lit "room_type") r) ↔ roomType_select_value s ≠ lit "")
  ∧ (∀ t, param (lit "room_type") r = Some t → t = roomType_select_value s).

End Leaderboard.

(** ** [backend/schema.sql]: the tables and what an [INSERT] stores *)

Module Schema.

Inductive sqltype :=
| SERIAL
| INTEGER
| VARCHAR (n : nat)
| TEXT
| JSONB
| TIMESTAMP.

(** The value of an expression: an integer, a text, a JSONB value (by the
    document PostgreSQL prints for it), a timestamp without time zone (in
    seconds from 1970-01-01 00:00:00). *)
Inductive value :=
| NULL
| Int (z : Z)
| Str (s : string)
| Json (document : string)
| Time (t : Z).

#[global] Instance value_eq_dec : EqDecision value.
Proof. solve_decision. Defined.

Inductive default_expr :=
| DEFAULT (v : value)
| DEFAULT_NOW.

Record column := {
  name : string;
  type : sqltype;
  not_null : bool;
  primary_key : bool;
  unique : bool;
  col_default : option default_expr
}.

Definition col (n : string) (t : sqltype) : column :=
  {| name := n; type := t; not_null := false; primary_key := false;
     unique := false; col_default := None |}.

Definition PRIMARY_KEY (c : column) : column :=
  {| name := name c; type := type c; not_null := not_null c;
     primary_key := true; unique := unique c; col_default := col_default c |}.

Definition NOT_NULL (c : column) : column :=
  {| name := name c; type := type c; not_null := true;
     primary_key := primary_key c; unique := unique c;
     col_default := col_default c |}.

Definition UNIQUE (c : column) : column :=
  {| name := name c; type := type c; not_null := not_null c;
     primary_key := primary_key c; unique := true;
     col_default := col_default c |}.

Definition WITH_DEFAULT (d : default_expr) (c : column) : column :=
  {| name := name c; type := type c; not_null := not_null c;
     primary_key := primary_key c; unique := unique c;
     col_default := Some d |}.

Definition game_sessions : list column :=
  [ PRIMARY_KEY (col "id" SERIAL);
    col "room_type" (VARCHAR 50);
    NOT_NULL (col "prompt" TEXT);
    col "human_response" TEXT;
    col "ai_response" TEXT;
    col "judge_prediction" JSONB;
    col "actual_labels" JSONB;
    WITH_DEFAULT DEFAULT_NOW (col "created_at" TIMESTAMP) ].

Definition players : list column :=
  [ PRIMARY_KEY (col "id" SERIAL);
    UNIQUE (col "username" (VARCHAR 50));
    WITH_DEFAULT (DEFAULT (Int 0)) (col "human_wins" INTEGER);
    WITH_DEFAULT (DEFAULT (Int 0)) (col "ai_detection_score" INTEGER);
    WITH_DEFAULT (DEFAULT (Int 0)) (col "games_played" INTEGER) ].

Definition training_batches : list column :=
  [ PRIMARY_KEY (col "id" SERIAL);
    col "misclassified_examples" JSONB;
    col "model_version" (VARCHAR 20);
    col "training_started_at" TIMESTAMP;
    WITH_DEFAULT (DEFAULT (Str "pending")) (col "status" (VARCHAR 20)) ].

(** A stored row maps every column to its value; a table is its rows, in
    insertion order, and the next value of the sequence behind its [SERIAL]
    column. *)
Record table := {
  rows : list (gmap string value);
  next_serial : Z
}.

Definition empty_table : table := {| rows := []; next_serial := 1 |}.

Inductive error :=
| undefined_column
| not_null_violation (c : string)
| datatype_mismatch (c : string)
| string_data_right_truncation (c : string)
| numeric_value_out_of_range (c : string)
| unique_violation (c : string).

Inductive result (A : Type) :=
| Ok (a : A)
| Err (e : error).

Arguments Ok {A} a.
Arguments Err {A} e.

Definition bind {A B} (r : result A) (k : A → result B) : result B :=
  match r with
  | Ok a => k a
  | Err e => Err e
  end.

Notation "'do' x <- r ; k" := (bind r (fun x => k))
  (at level 10, x name, r at level 100, k at level 200).

Definition is_null (v : value) : bool :=
  match v with NULL => true | _ => false end.

(** A [SERIAL] column and a primary key refuse [NULL], like a column
    declared [NOT NULL]. *)
Definition refuses_null (c : column) : bool :=
  not_null c || primary_key c
  || match type c with SERIAL => true | _ => false end.

Definition must_be_unique (c : column) : bool := unique c || primary_key c.

Definition in_int4 (z : Z) : bool := (-2147483648 <=? z) && (z <=? 2147483647).

Definition all_spaces (s : string) : bool :=
  forallb (fun a => bool_decide (a = " "%char)) (list_ascii_of_string s).

(** *** Values as text

    A value given to a [TEXT] or [VARCHAR] column is cast to text on
    assignment: an integer to its decimal digits, a JSON value to its
    document, a timestamp to its ISO form.  (No cast leads from text to the
    other types: the values here are typed expressions, not untyped
    literals.) *)

(** [z] in decimal, with a minus sign when negative. *)
Definition int_text (z : Z) : string :=
  DecimalString.NilZero.string_of_int (Z.to_int z).

(** [z], not negative, in at least [width] digits. *)
Definition zero_padded (width : nat) (z : Z) : string :=
  let digits := int_text z in
  String.concat "" (repeat "0"%string (width - String.length digits))
  ++ digits.

(** The date, in the proleptic Gregorian calendar, of the day [days] days
    after 1970-01-01: astronomical year, month, day of the month. *)
Definition civil_from_days (days : Z) : Z * Z * Z :=
  let z := days + 719468 in
  let era := z / 146097 in
  let doe := z - era * 146097 in
  let yoe := (doe - doe / 1460 + doe / 36524 - doe / 146096) / 365 in
  let doy := doe - (365 * yoe + yoe / 4 - yoe / 100) in
  let mp := (5 * doy + 2) / 153 in
  let d := doy - (153 * mp + 2) / 5 + 1 in
  let m := if mp <? 10 then mp + 3 else mp - 9 in
  let y := yoe + era * 400 + (if m <=? 2 then 1 else 0) in
  (y, m, d).

(** A timestamp, [t] seconds after 1970-01-01 00:00:00 on its own
    zone-less scale, as [YYYY-MM-DD HH:MM:SS]; years before 1 are counted
    back and marked [BC]. *)
Definition timestamp_text (t : Z) : string :=
  let '(y, m, d) := civil_from_days (t / 86400) in
  let secs := t mod 86400 in
  zero_padded 4 (if 0 <? y then y else 1 - y)
  ++ "-" ++ zero_padded 2 m ++ "-" ++ zero_padded 2 d
  ++ " " ++ zero_padded 2 (secs / 3600)
  ++ ":" ++ zero_padded 2 (secs mod 3600 / 60)
  ++ ":" ++ zero_padded 2 (secs mod 60)
  ++ (if 0 <? y then "" else " BC").

Definition text_of (v : value) : string :=
  match v with
  | NULL => ""
  | Int z => int_text z
  | Str s => s
  | Json document => document
  | Time t => timestamp_text t
  end.

(** A text for a [VARCHAR(n)] column: one too long is refused unless what
    exceeds [n] is spaces only, which are cut off. *)
Definition to_varchar (c : column) (n : nat) (s : string) : result value :=
  if bool_decide (String.length s ≤ n)%nat then Ok (Str s)
  else if all_spaces (String.substring n (String.length s - n) s)
       then Ok (Str (String.substring 0 n s))
       else Err (string_data_right_truncation (name c)).

(** The value a column keeps for a given one. *)
Definition coerce (c : column) (v : value) : result value :=
  match v, type c with
  | NULL, _ => Ok NULL
  | _, TEXT => Ok (Str (text_of v))
  | _, VARCHAR n => to_varchar c n (text_of v)
  | Int z, (SERIAL | INTEGER) =>
      if in_int4 z then Ok (Int z)
      else Err (numeric_value_out_of_range (name c))
  | Json j, JSONB => Ok (Json j)
  | Time t, TIMESTAMP => Ok (Time t)
  | _, _ => Err (datatype_mismatch (name c))
  end.

(** The value of a column the statement does not mention. *)
Definition default_value (now : Z) (t : table) (c : column) : value :=
  match col_default c, type c with
  | Some (DEFAULT v), _ => v
  | Some DEFAULT_NOW, _ => Time now
  | None, SERIAL => Int (next_serial t)
  | None, _ => NULL
  end.

Definition taken (t : table) (c : column) (v : value) : bool :=
  existsb (fun r => bool_decide (r !! name c = Some v)) (rows t).

Definition column_value (now : Z) (t : table) (given : gmap string value)
  (c : column) : result value :=
  do v <- coerce c (default (default_value now t c) (given !! name c));
  if is_null v
  then if refuses_null c then Err (not_null_violation (name c)) else Ok v
  else if must_be_unique c && taken t c v
       then Err (unique_violation (name c)) else Ok v.

Fixpoint build_row (now : Z) (t : table) (given : gmap string value)
  (cols : list column) : result (gmap string value) :=
  match cols with
  | [] => Ok ∅
  | c :: cols' =>
      do v <- column_value now t given c;
      do r <- build_row now t given cols';
      Ok (<[name c := v]> r)
  end.

Definition uses_sequence (given : gmap string value) (cols : list column)
  : bool :=
  existsb (fun c => match type c with
                    | SERIAL => bool_decide (given !! name c = None)
                    | _ => false
                    end) cols.

(** [INSERT INTO cols (k1, ...) VALUES (v1, ...)] at time [now], [given]
    holding the pairs of the statement. *)
Definition insert (cols : list column) (now : Z) (t : table)
  (given : gmap string value) : result table :=
  if negb (bool_decide (dom given ⊆ list_to_set (map name cols)))
  then Err undefined_column
  else
    do r <- build_row now t given cols;
    Ok {| rows := rows t ++ [r];
          next_serial := if uses_sequence given cols
                         then next_serial t + 1 else next_serial t |}.

(** The row an insertion added. *)
Definition inserted (t : table) : option (gmap string value) := last (rows t).

(** The values the specification lists for the status of a training
    batch. *)
Definition status_values : list string :=
  ["pending"; "running"; "done"; "failed"].

(** The sequence is ahead of the ids in use: its next value fits the column
    and no row has it yet (rows given an [id] explicitly may break this). *)
Definition sequence_ahead (t : table) : Prop :=
  in_int4 (next_serial t) = true
  ∧ ∀ r, r ∈ rows t → r !! "id" ≠ Some (Int (next_serial t)).

(** A first player, and the [players] table holding just her. *)
Definition ada : gmap string value :=
  list_to_map
    [("id", Int 1); ("username", Str "ada"); ("human_wins", Int 0);
     ("ai_detection_score", Int 0); ("games_played", Int 0)].

Definition one_player : table := {| rows := [ada]; next_serial := 2 |}.

(** A value is one its column can hold: of the column's type and size, and
    null only where the column allows it. *)
Definition fits (c : column) (v : value) : Prop :=
  match v with
  | NULL => refuses_null c = false
  | Int z => (type c = SERIAL ∨ type c = INTEGER) ∧ in_int4 z = true
  | Str s =>
      type c = TEXT ∨ ∃ n, type c = VARCHAR n ∧ (String.length s ≤ n)%nat
  | Json _ => type c = JSONB
  | Time _ => type c = TIMESTAMP
  end.

(** No two rows of the table share a value in column [c], nulls apart. *)
Definition distinct_on (c : column) (t : table) : Prop :=
  ∀ i j ri rj v,
    rows t !! i = Some ri → rows t !! j = Some rj →
    ri !! name c = Some v → rj !! name c = Some v → v ≠ NULL → i = j.

End Schema.

(** ** The room engine (server side)

    The server is not among the sources at hand; the room state machine and
    its deadline timers are taken from the design document (its transition
    table and scheduler section). *)

Module Room.

Definition player := nat.

Inductive Phase := Lobby | Responding | Judging | Voting | Results.

#[global] Instance Phase_eq_dec : EqDecision Phase.
Proof. solve_decision. Defined.

Inductive Side := Left | Right.

#[global] Instance Side_eq_dec : EqDecision Side.
Proof. solve_decision. Defined.

(** Modelled from the spec: the server's room record is missing; a room has
    its players in join order, its lifecycle state, the counter that
    identifies the current round, the responses and votes collected in that
    round (at most one per player), the left/right assignment once chosen,
    and the tag of the deadline timer that is armed, if one is. *)
Record Room := {
  players : list player;
  phase : Phase;
  round : nat;
  responses : gmap player string;
  votes : gmap player Side;
  left_is_human : option bool;
  armed : option nat
}.

Inductive Message :=
| player_joined (player_count : nat)
| new_round (timeout : Z)
| judging_started
| voting_phase (timeout : Z)
| round_results (left right : nat)
| error.

Inductive Output :=
| Broadcast (m : Message)
| Arm (tag : nat) (seconds : Z)
| Cancel (tag : nat).

Inductive Event :=
| Join (p : player)
| Leave (p : player)
| SubmitResponse (p : player) (response : string)
| JudgeReturned (left_human : bool)
| JudgeFailed
| CastVote (p : player) (side : Side)
| RequestNewRound
| TimerFired (tag : nat).

Definition new_room : Room :=
  {| players := []; phase := Lobby; round := 0; responses := ∅; votes := ∅;
     left_is_human := None; armed := None |}.

(** Modelled from the spec: default deadlines, response phase 90 s and
    voting phase 30 s (the server's constants are missing). *)
Definition response_deadline : Z := 90.
Definition voting_deadline : Z := 30.

Definition cancel (r : Room) : list Output :=
  match armed r with Some t => [Cancel t] | None => [] end.

(** Modelled from the spec: entering [Responding] (the server's function is
    missing) starts the next round, arms the response timer tagged with the
    new round and broadcasts [new_round]. *)
Definition start_round (r : Room) : Room * list Output :=
  let n := S (round r) in
  ({| players := players r; phase := Responding; round := n;
      responses := ∅; votes := ∅; left_is_human := None; armed := Some n |},
   [Arm n response_deadline; Broadcast (new_round response_deadline)]).

Definition to_lobby (r : Room) : Room * list Output :=
  ({| players := players r; phase := Lobby; round := round r;
      responses := responses r; votes := votes r;
      left_is_human := left_is_human r; armed := None |},
   cancel r ++ [Broadcast error]).

Definition to_judging (r : Room) : Room * list Output :=
  ({| players := players r; phase := Judging; round := round r;
      responses := responses r; votes := votes r;
      left_is_human := left_is_human r; armed := None |},
   cancel r ++ [Broadcast judging_started]).

Definition to_voting (r : Room) (left_human : bool) : Room * list Output :=
  ({| players := players r; phase := Voting; round := round r;
      responses := responses r; votes := votes r;
      left_is_human := Some left_human; armed := Some (round r) |},
   [Arm (round r) voting_deadline; Broadcast (voting_phase voting_deadline)]).

Definition count_votes (s : Side) (r : Room) : nat :=
  size (filter (fun kv => kv.2 = s) (votes r)).

Definition to_results (r : Room) : Room * list Output :=
  ({| players := players r; phase := Results; round := round r;
      responses := responses r; votes := votes r;
      left_is_human := left_is_human r; armed := None |},
   cancel r
   ++ [Broadcast (round_results (count_votes Left r) (count_votes Right r))]).

Definition all_in {A} (ps : list player) (m : gmap player A) : bool :=
  forallb (fun p => bool_decide (is_Some (m !! p))) ps.

(** Modelled from the spec: the transition function of the room (the
    server's event handlers are missing), one case per row of the
    transition table; an event that no row admits changes nothing.  A timer
    firing is looked at only when its tag is the current round. *)
Definition step (r : Room) (e : Event) : Room * list Output :=
  match e with
  | TimerFired tag =>
      if bool_decide (tag = round r) then
        match phase r with
        | Responding =>
            if bool_decide (responses r = ∅) then to_lobby r else to_judging r
        | Voting => to_results r
        | _ => (r, [])
        end
      else (r, [])
  | Join p =>
      if bool_decide (p ∈ players r) then (r, [])
      else
        let r1 :=
          {| players := players r ++ [p]; phase := phase r; round := round r;
             responses := responses r; votes := votes r;
             left_is_human := left_is_human r; armed := armed r |} in
        let joined := [Broadcast (player_joined (length (players r1)))] in
        if bool_decide (phase r = Lobby) && (2 <=? length (players r1))%nat
        then let '(r2, out) := start_round r1 in (r2, joined ++ out)
        else (r1, joined)
  | Leave p =>
      ({| players := filter (fun q => q ≠ p) (players r); phase := phase r;
          round := round r; responses := responses r; votes := votes r;
          left_is_human := left_is_human r; armed := armed r |}, [])
  | SubmitResponse p text =>
      if bool_decide (phase r = Responding) && bool_decide (p ∈ players r)
         && bool_decide (responses r !! p = None)
      then
        let r1 :=
          {| players := players r; phase := phase r; round := round r;
             responses := <[p := text]> (responses r); votes := votes r;
             left_is_human := left_is_human r; armed := armed r |} in
        if all_in (players r1) (responses r1) then to_judging r1 else (r1, [])
      else (r, [])
  | JudgeReturned left_human =>
      if bool_decide (phase r = Judging) then to_voting r left_human
      else (r, [])
  | JudgeFailed =>
      if bool_decide (phase r = Judging) then to_lobby r else (r, [])
  | CastVote p side =>
      if bool_decide (phase r = Voting) && bool_decide (p ∈ players r)
         && bool_decide (votes r !! p = None)
      then
        let r1 :=
          {| players := players r; phase := phase r; round := round r;
             responses := responses r; votes := <[p := side]> (votes r);
             left_is_human := left_is_human r; armed := armed r |} in
        if all_in (players r1) (votes r1) then to_results r1 else (r1, [])
      else (r, [])
  | RequestNewRound =>
      if bool_decide (phase r = Results) then start_round r else (r, [])
  end.

Fixpoint run (r : Room) (es : list Event) : Room :=
  match es with
  | [] => r
  | e :: es' => run (step r e).1 es'
  end.

(** The armed timer, if any, is tagged with the current round. *)
Definition armed_current (r : Room) : Prop :=
  ∀ t, armed r = Some t → t = round r.

End Room.

(** ** [Lobby]: choosing a room *)

Module Lobby.
Import JS.

(** [interface Room] *)
Record Room := {
  room_key : jsstring;
  room_type : jsstring;
  player_count : Z;
  max_players : Z
}.

#[global] Instance Room_eq_dec : EqDecision Room.
Proof. solve_decision. Defined.

Record RoomType := {
  id : jsstring;
  name : jsstring;
  icon : jsstring;
  description : jsstring
}.

#[global] Instance RoomType_eq_dec : EqDecision RoomType.
Proof. solve_decision. Defined.

(** The icons are single emoji, two code units each. *)
Definition ROOM_TYPES : list RoomType :=
  [ {| id := lit "poetry"; name := lit "Poetry";
       icon := [0xD83D; 0xDCDD]%N;
       description := lit "Write poems and verses" |};
    {| id := lit "debate"; name := lit "Debate";
       icon := [0xD83D; 0xDCAC]%N;
       description := lit "Argue and persuade" |};
    {| id := lit "personal"; name := lit "Personal";
       icon := [0xD83D; 0xDC64]%N;
       description := lit "Share personal stories" |};
    {| id := lit "creative"; name := lit "Creative";
       icon := [0xD83C; 0xDFA8]%N;
       description := lit "Creative writing" |} ].

Record State := {
  rooms : list Room;
  selectedType : jsstring;
  roomName : jsstring;
  loading : bool
}.

Definition init : State :=
  {| rooms := []; selectedType := lit "general"; roomName := [];
     loading := false |}.

(** What a handler does to the outside.  [throw_TypeError] is the reading
    of a property of [undefined], which ends the handler. *)
Inductive Effect :=
| fetch (url : string)
| alert (message : jsstring)
| setItem (key value : jsstring)
| navigate (path : jsstring)
| throw_TypeError.

(** [Interval] is the five-second refresh; [ClickQuickPlay] comes with what
    [Date.now()] and [Math.random()] return at that moment. *)
Inductive Event :=
| RoomsResolved (data : option (list Room))
| RoomsRejected
| Interval
| ChangeRoomName (value : jsstring)
| ClickRoomType (type : RoomType)
| ClickCreateRoom
| ClickRoom (room : Room)
| ClickQuickPlay (now : Z) (random : Q).

Definition setRooms (s : State) (l : list Room) : State :=
  {| rooms := l; selectedType := selectedType s; roomName := roomName s;
     loading := loading s |}.

Definition setSelectedType (s : State) (v : jsstring) : State :=
  {| rooms := rooms s; selectedType := v; roomName := roomName s;
     loading := loading s |}.

Definition setRoomName (s : State) (v : jsstring) : State :=
  {| rooms := rooms s; selectedType := selectedType s; roomName := v;
     loading := loading s |}.

(** [fetchRooms], up to the [await]. *)
Definition fetchRooms : list Effect := [fetch "http://localhost:5000/api/rooms"].

Definition mount : State * list Effect := (init, fetchRooms).

(** [`${n}`] for an integer. *)
Definition decimal (n : Z) : jsstring :=
  lit (DecimalString.NilZero.string_of_int (Z.to_int n)).

Definition createRoom (s : State) : list Effect :=
  if negb (truthy_str (trim (roomName s)))
  then [alert (lit "Please enter a room name")]
  else [setItem (lit "selectedRoomType") (selectedType s);
        navigate (lit "/room/" ++ roomName s)].

Definition joinRoom (roomKey roomType : jsstring) : list Effect :=
  [setItem (lit "selectedRoomType") roomType;
   navigate (lit "/room/" ++ roomKey)].

(** [ROOM_TYPES[i]] for an integer [i]. *)
Definition ROOM_TYPES_at (i : Z) : option RoomType :=
  if i <? 0 then None else ROOM_TYPES !! Z.to_nat i.

Definition quickPlay (now : Z) (random : Q) : list Effect :=
  let randomRoom := lit "room-" ++ decimal now in
  match ROOM_TYPES_at
          (Qfloor (random * inject_Z (Z.of_nat (length ROOM_TYPES)))) with
  | None => [throw_TypeError]
  | Some t =>
      [setItem (lit "selectedRoomType") (id t);
       navigate (lit "/room/" ++ randomRoom)]
  end.

(** The type buttons are those of [ROOM_TYPES], the room cards those of the
    rooms listed. *)
Definition enabled (s : State) (e : Event) : bool :=
  match e with
  | ClickRoomType t => bool_decide (t ∈ ROOM_TYPES)
  | ClickRoom r => bool_decide (r ∈ rooms s)
  | _ => true
  end.

Definition handle (s : State) (e : Event) : State * list Effect :=
  match e with
  | RoomsResolved data => (setRooms s (default [] data), [])
  | RoomsRejected => (s, [])
  | Interval => (s, fetchRooms)
  | ChangeRoomName v => (setRoomName s v, [])
  | ClickRoomType t => (setSelectedType s (id t), [])
  | ClickCreateRoom => (s, createRoom s)
  | ClickRoom r => (s, joinRoom (room_key r) (room_type r))
  | ClickQuickPlay now random => (s, quickPlay now random)
  end.

Definition step (s : State) (e : Event) : State * list Effect :=
  if enabled s e then handle s e else (s, []).

Fixpoint run (s : State) (es : list Event) : State * list Effect :=
  match es with
  | [] => (s, [])
  | e :: es' =>
      let '(s1, out1) := step s e in
      let '(s2, out2) := run s1 es' in
      (s2, out1 ++ out2)
  end.

(** The room types the lobby itself can store: the initial ['general'] and
    the four on offer. *)
Definition own_types : list jsstring := lit "general" :: map id ROOM_TYPES.

(** What the game screen finds when it opens after the lobby stored [ty]
    and the router handed it [rid]. *)
Definition game_props (rid ty : jsstring) : GameRoom.Props :=
  {| GameRoom.socket := true; GameRoom.roomId := Some rid;
     GameRoom.selectedRoomType := Some ty |}.

End Lobby.

(** ** [ErrorBoundary] and [GameErrorBoundary] *)

Module ErrorBoundary.
Import JS.

Record Error := {
  message : jsstring;
  stack : option jsstring
}.

Record ErrorInfo := {
  componentStack : jsstring
}.

(** [process.env.NODE_ENV] *)
Inductive NODE_ENV := development | production | other_env.

(** The props, but for the children: the fallback to render (a text), if
    one is given, and whether an [onError] callback is. *)
Record Props := {
  fallback : option jsstring;
  onError : bool
}.

Record State := {
  hasError : bool;
  error : option Error;
  errorInfo : option ErrorInfo;
  errorCount : Z
}.

Definition init : State :=
  {| hasError := false; error := None; errorInfo := None; errorCount := 0 |}.

(** [post_api_errors] is the POST to [/api/errors]; besides the three
    fields kept here its body carries the time, the user agent and the
    address of the page, which come from the browser. *)
Inductive Effect :=
| console_error (e : Error) (i : ErrorInfo)
| call_onError (e : Error) (i : ErrorInfo)
| post_api_errors (message : jsstring) (stack : option jsstring)
                  (componentStack : jsstring)
| reload
| go_to (href : string).

(** [Caught] is a child throwing while it renders. *)
Inductive Event :=
| Caught (e : Error) (i : ErrorInfo)
| ClickTryAgain
| ClickRefreshPage
| ClickGoHome.

Definition getDerivedStateFromError (s : State) (e : Error) : State :=
  {| hasError := true; error := Some e; errorInfo := errorInfo s;
     errorCount := errorCount s |}.

Definition logErrorToService (e : Error) (i : ErrorInfo) : list Effect :=
  [post_api_errors (message e) (stack e) (componentStack i)].

Definition componentDidCatch (env : NODE_ENV) (p : Props) (s : State)
  (e : Error) (i : ErrorInfo) : State * list Effect :=
  ({| hasError := hasError s; error := error s; errorInfo := Some i;
      errorCount := errorCount s + 1 |},
   (match env with development => [console_error e i] | _ => [] end)
   ++ (if onError p then [call_onError e i] else [])
   ++ (match env with production => logErrorToService e i | _ => [] end)).

Definition handleReset (s : State) : State :=
  {| hasError := false; error := None; errorInfo := None;
     errorCount := errorCount s |}.

(** What is on the page: the children, the fallback given, or the default
    screen with, in development, the error's message and component stack,
    and beyond two errors the warning. *)
Inductive View :=
| Children
| Fallback (node : jsstring)
| DefaultScreen (details : option (jsstring * option jsstring))
                (warning : bool).

Definition default_screen (env : NODE_ENV) (s : State) : View :=
  DefaultScreen
    (match env, error s with
     | development, Some e =>
         Some (message e, componentStack <$> errorInfo s)
     | _, _ => None
     end)
    (2 <? errorCount s).

(** [if (this.props.fallback)] asks for a truthy fallback: an empty text
    counts as none. *)
Definition render (env : NODE_ENV) (p : Props) (s : State) : View :=
  if hasError s then
    match fallback p with
    | Some f => if truthy_str f then Fallback f else default_screen env s
    | None => default_screen env s
    end
  else Children.

(** The buttons exist on the default screen only. *)
Definition enabled (env : NODE_ENV) (p : Props) (s : State) (e : Event)
  : bool :=
  match e with
  | Caught _ _ => true
  | _ => match render env p s with DefaultScreen _ _ => true | _ => false end
  end.

Definition handle (env : NODE_ENV) (p : Props) (s : State) (e : Event)
  : State * list Effect :=
  match e with
  | Caught err i => componentDidCatch env p (getDerivedStateFromError s err) err i
  | ClickTryAgain => (handleReset s, [])
  | ClickRefreshPage => (s, [reload])
  | ClickGoHome => (s, [go_to "/"])
  end.

Definition step (env : NODE_ENV) (p : Props) (s : State) (e : Event)
  : State * list Effect :=
  if enabled env p s e then handle env p s e else (s, []).

Fixpoint run (env : NODE_ENV) (p : Props) (s : State) (es : list Event)
  : State * list Effect :=
  match es with
  | [] => (s, [])
  | e :: es' =>
      let '(s1, out1) := step env p s e in
      let '(s2, out2) := run env p s1 es' in
      (s2, out1 ++ out2)
  end.

Definition is_caught (e : Event) : bool :=
  match e with Caught _ _ => true | _ => false end.

Definition onError_calls (out : list Effect) : list (Error * ErrorInfo) :=
  omap (fun x => match x with call_onError e i => Some (e, i) | _ => None end)
       out.

Definition caught_of (es : list Event) : list (Error * ErrorInfo) :=
  omap (fun x => match x with Caught e i => Some (e, i) | _ => None end) es.

(** *** [GameErrorBoundary] *)

Inductive GameView := GameChildren | GameError.

Definition game_componentDidCatch (s : State) (e : Error) (i : ErrorInfo)
  : State * list Effect :=
  ({| hasError := hasError s; error := error s; errorInfo := Some i;
      errorCount := errorCount s |}, [console_error e i]).

Definition game_render (s : State) : GameView :=
  if hasError s then GameError else GameChildren.

Inductive GameEvent :=
| GameCaught (e : Error) (i : ErrorInfo)
| ClickReturnToLobby.

Definition game_step (s : State) (e : GameEvent) : State * list Effect :=
  match e with
  | GameCaught err i =>
      game_componentDidCatch (getDerivedStateFromError s err) err i
  | ClickReturnToLobby =>
      match game_render s with
      | GameError => (s, [go_to "/lobby"])
      | GameChildren => (s, [])
      end
  end.

Fixpoint game_run (s : State) (es : list GameEvent) : State * list Effect :=
  match es with
  | [] => (s, [])
  | e :: es' =>
      let '(s1, out1) := game_step s e in
      let '(s2, out2) := game_run s1 es' in
      (s2, out1 ++ out2)
  end.

End ErrorBoundary.

(** ** [Profile]: the achievements *)

Module Profile.
Import JS.

Record Stats := {
  games_played : Z;
  human_wins : Z;
  detection_accuracy : Q
}.

Record User := {
  id : Z;
  username : jsstring;
  stats : option Stats
}.

Inductive Achievement :=
| Regular_Player
| Master_Deceiver
| AI_Detective
| Veteran.

#[global] Instance Achievement_eq_dec : EqDecision Achievement.
Proof. solve_decision. Defined.

(** The badges shown, in the order of the page; none without [stats]. *)
Definition achievements (user : User) : list Achievement :=
  match stats user with
  | None => []
  | Some st =>
      (if 10 <=? games_played st then [Regular_Player] else [])
      ++ (if 5 <=? human_wins st then [Master_Deceiver] else [])
      ++ (if Qle_bool (7 # 10) (detection_accuracy st)
          then [AI_Detective] else [])
      ++ (if 50 <=? games_played st then [Veteran] else [])
  end.

(** One record of statistics is at least another, field by field. *)
Definition at_least (a b : Stats) : Prop :=
  games_played b ≤ games_played a ∧ human_wins b ≤ human_wins a
  ∧ (detection_accuracy b <= detection_accuracy a)%Q.

Definition with_stats (u : User) (st : Stats) : User :=
  {| id := id u; username := username u; stats := Some st |}.

End Profile.

(** * Properties *)

(** ** JavaScript strings *)

Example trim_strips_both_ends :
  JS.trim (JS.lit " hi there  ") = JS.lit "hi there".
Proof. reflexivity. Qed.

Example trim_of_blank : JS.trim [0x20; 0x09; 0x0A; 0xA0; 0x3000]%N = [].
Proof. reflexivity. Qed.

Example num_or_examples :
  JS.num_or None 90 = 90 ∧ JS.num_or (Some 0) 90 = 90
  ∧ JS.num_or (Some 45) 90 = 45.
Proof. by repeat split. Qed.

(** ** The game screen *)

Section GameRoomFacts.
Import JS GameRoom.

Variable p : Props.

Lemma run_app s es1 es2 :
  run p s (es1 ++ es2) =
  let '(s1, out1) := run p s es1 in
  let '(s2, out2) := run p s1 es2 in (s2, out1 ++ out2).
Proof.
  revert s. induction es1 as [|e es1 IH]; intros s; simpl.
  - by destruct (run p s es2).
  - destruct (step p s e) as [s1 o1]. rewrite IH.
    destruct (run p s1 es1) as [s2 o2], (run p s2 es2) as [s3 o3].
    by rewrite app_assoc.
Qed.

(** A vote already selected survives every event but [voting_phase], and
    nothing is sent meanwhile. *)
Lemma step_keeps_vote s e v :
  selectedVote s = Some v → is_voting_phase e = false →
  selectedVote (step p s e).1 = Some v ∧ votes_of (step p s e).2 = [].
Proof.
  intros Hv He. unfold step. destruct (enabled p s e); [|done].
  destruct e as [[]| | | | | |]; simpl in *; try done.
  - unfold submitResponse. by case_match.
  - unfold onClickCard. by rewrite Hv.
  - unfold onClickCard. by rewrite Hv.
  - unfold requestNewRound. by case_match.
Qed.

(** Without a selected vote, an event either leaves things so or is the
    click that selects and sends one vote. *)
Lemma step_first_vote s e :
  selectedVote s = None → is_voting_phase e = false →
  (selectedVote (step p s e).1 = None ∧ votes_of (step p s e).2 = [])
  ∨ ∃ v, selectedVote (step p s e).1 = Some v ∧ votes_of (step p s e).2 = [v].
Proof.
  intros Hv He. unfold step. destruct (enabled p s e); [|by left].
  destruct e as [[]| | | | | |]; simpl in *; try done; try by left.
  - unfold submitResponse. case_match; by left.
  - unfold onClickCard, submitVote. rewrite Hv.
    case_match; [by left | right; by eexists].
  - unfold onClickCard, submitVote. rewrite Hv.
    case_match; [by left | right; by eexists].
  - unfold requestNewRound. case_match; by left.
Qed.

Lemma votes_of_app o1 o2 : votes_of (o1 ++ o2) = votes_of o1 ++ votes_of o2.
Proof. apply omap_app. Qed.

Lemma run_keeps_vote es : ∀ s v,
  selectedVote s = Some v → Forall (fun e => is_voting_phase e = false) es →
  selectedVote (run p s es).1 = Some v ∧ votes_of (run p s es).2 = [].
Proof.
  induction es as [|e es IH]; intros s v Hv Hes; simpl; [done|].
  inversion_clear Hes as [|? ? He Hes'].
  destruct (step_keeps_vote s e v Hv He) as [H1 H2].
  destruct (step p s e) as [s1 o1]; simpl in *.
  destruct (IH s1 v H1 Hes') as [H3 H4].
  destruct (run p s1 es) as [s2 o2]; simpl in *.
  by rewrite votes_of_app, H2, H4.
Qed.

Lemma run_at_most_one_vote es : ∀ s,
  Forall (fun e => is_voting_phase e = false) es →
  (length (votes_of (run p s es).2) ≤ 1)%nat
  ∧ ∀ v, votes_of (run p s es).2 = [v] → selectedVote (run p s es).1 = Some v.
Proof.
  induction es as [|e es IH]; intros s Hes; simpl; [split; [lia|done]|].
  inversion_clear Hes as [|? ? He Hes'].
  destruct (selectedVote s) as [v0|] eqn:Hs.
  - destruct (step_keeps_vote s e v0 Hs He) as [H1 H2].
    destruct (step p s e) as [s1 o1]; simpl in *.
    destruct (run_keeps_vote es s1 v0 H1 Hes') as [H3 H4].
    destruct (run p s1 es) as [s2 o2]; simpl in *.
    rewrite votes_of_app, H2, H4. simpl. split; [lia|done].
  - destruct (step_first_vote s e Hs He) as [[H1 H2]|[v [H1 H2]]].
    + destruct (step p s e) as [s1 o1]; simpl in *.
      specialize (IH s1 Hes').
      destruct (run p s1 es) as [s2 o2]; simpl in *.
      by rewrite votes_of_app, H2.
    + destruct (step p s e) as [s1 o1]; simpl in *.
      destruct (run_keeps_vote es s1 v H1 Hes') as [H3 H4].
      destruct (run p s1 es) as [s2 o2]; simpl in *.
      rewrite votes_of_app, H2, H4. simpl. split; [lia|].
      intros v' [= <-]. done.
Qed.

(** A round as a player goes through it. *)
Example a_round :
  let me := {| socket := true; roomId := Some (lit "R1");
               selectedRoomType := Some (lit "poetry") |} in
  (run me (mount me).1
     [Server (new_round (lit "Describe rain.") (Some 2));
      ChangeResponse (lit "wet");
      Tick;
      ClickSubmitResponse;
      Server judging_started;
      Tick; Tick;
      Server (voting_phase (lit "wet") (lit "Rain is water.") None);
      ClickRightCard; ClickLeftCard]).2
  = [submit_response (Some (lit "R1")) (lit "wet");
     submit_vote (Some (lit "R1")) vote_right].
Proof. vm_compute. reflexivity. Qed.

(** A blank response is not sent. *)
Example blank_response_stays :
  let me := {| socket := true; roomId := Some (lit "R1");
               selectedRoomType := None |} in
  (run me init
     [Server (new_round (lit "Describe rain.") None);
      ChangeResponse (lit "   "); ClickSubmitResponse]).2 = [].
Proof. vm_compute. reflexivity. Qed.

End GameRoomFacts.

(** C1. Within a round (a stretch of events with no [voting_phase] in it)
    the client sends at most one [submit_vote]; the vote sent is the one
    that stays selected; and once a vote is selected, whatever is clicked
    afterwards sends no vote and leaves the selection as it is, so only a
    [voting_phase] message clears it (and it always does). *)
Theorem one_vote_per_round (p : GameRoom.Props) (s : GameRoom.State)
  (es : list GameRoom.Event) :
  Forall (fun e => GameRoom.is_voting_phase e = false) es →
  (length (GameRoom.votes_of (GameRoom.run p s es).2) ≤ 1)%nat
  ∧ (∀ v, GameRoom.votes_of (GameRoom.run p s es).2 = [v] →
          GameRoom.selectedVote (GameRoom.run p s es).1 = Some v)
  ∧ (∀ v, GameRoom.selectedVote s = Some v →
          GameRoom.votes_of (GameRoom.run p s es).2 = []
          ∧ GameRoom.selectedVote (GameRoom.run p s es).1 = Some v)
  ∧ (∀ l r t, GameRoom.listening p = true →
       GameRoom.selectedVote
         (GameRoom.step p s (GameRoom.Server (GameRoom.voting_phase l r t))).1
       = None).
Proof.
  intros Hes. destruct (run_at_most_one_vote p es s Hes) as [H1 H2].
  split; [done|]. split; [done|]. split.
  - intros v Hv. by destruct (run_keeps_vote p es s v Hv Hes).
  - intros l r t Hl. unfold GameRoom.step. simpl. by rewrite Hl.
Qed.

Lemma one_vote_per_round_witness :
  let p := {| GameRoom.socket := true; GameRoom.roomId := Some (JS.lit "R1");
              GameRoom.selectedRoomType := None |} in
  let s := (GameRoom.step p GameRoom.init
              (GameRoom.Server
                 (GameRoom.voting_phase (JS.lit "a") (JS.lit "b") None))).1 in
  let es := [GameRoom.ClickLeftCard; GameRoom.ClickRightCard;
             GameRoom.ClickLeftCard] in
  GameRoom.votes_of (GameRoom.run p s es).2 = [GameRoom.vote_left]
  ∧ GameRoom.selectedVote (GameRoom.run p s es).1 = Some GameRoom.vote_left.
Proof.
  intros p s es.
  assert (Hes : Forall (fun e => GameRoom.is_voting_phase e = false) es)
    by (repeat constructor).
  pose proof (one_vote_per_round p s es Hes) as (_ & H & _).
  split; [vm_compute; reflexivity | apply H; vm_compute; reflexivity].
Defined.

Lemma trim_start_nonempty (r : JS.jsstring) :
  JS.trim_start r ≠ [] → ∃ c, c ∈ r ∧ JS.is_white_space c = false.
Proof.
  induction r as [|c r IH]; simpl; [done|].
  destruct (JS.is_white_space c) eqn:Hc.
  - intros H. destruct (IH H) as (c' & Hin & Hc'). exists c'. split; [|done].
    apply elem_of_cons. by right.
  - intros _. exists c. split; [apply elem_of_cons; by left | done].
Qed.

Lemma trim_nonempty (r : JS.jsstring) :
  JS.truthy_str (JS.trim r) = true →
  ∃ c, c ∈ r ∧ JS.is_white_space c = false.
Proof.
  intros H. apply trim_start_nonempty. intros E.
  unfold JS.trim in H. by rewrite E in H.
Qed.

Section ResponseFacts.
Import JS GameRoom.

Variable p : Props.

(** Whatever one event sends as a response is the content of the text box,
    which is not blank. *)
Lemma step_response s e r :
  r ∈ responses_of (step p s e).2 →
  e = ClickSubmitResponse ∧ r = userResponse s
  ∧ truthy_str (trim r) = true ∧ socket p = true.
Proof.
  unfold step.
  destruct (enabled p s e) eqn:En; simpl; [|by intros ?%elem_of_nil].
  destruct e as [[]| | | | | |]; simpl;
    try (by intros ?%elem_of_nil).
  - unfold submitResponse.
    destruct (socket p); simpl; [|by intros ?%elem_of_nil].
    destruct (truthy_str (trim (userResponse s))) eqn:Ht; simpl;
      [|by intros ?%elem_of_nil].
    intros ->%list_elem_of_singleton. done.
  - unfold onClickCard, submitVote.
    destruct (selectedVote s), (socket p); simpl; by intros ?%elem_of_nil.
  - unfold onClickCard, submitVote.
    destruct (selectedVote s), (socket p); simpl; by intros ?%elem_of_nil.
  - unfold requestNewRound. destruct (socket p); simpl; by intros ?%elem_of_nil.
Qed.

(** The text box never holds more than [maxLength] code units. *)
Lemma step_keeps_cap s e :
  (length (userResponse s) ≤ maxLength)%nat →
  (length (userResponse (step p s e).1) ≤ maxLength)%nat.
Proof.
  intros Hs. unfold step. destruct (enabled p s e) eqn:En; [|done].
  destruct e as [[]| | | | | |]; simpl in *; try done.
  - lia.
  - apply andb_true_iff in En as [_ En]. by apply bool_decide_eq_true in En.
  - unfold submitResponse. by case_match.
  - unfold onClickCard, submitVote. by repeat case_match.
  - unfold onClickCard, submitVote. by repeat case_match.
  - unfold requestNewRound. by case_match.
Qed.

Lemma responses_of_app o1 o2 :
  responses_of (o1 ++ o2) = responses_of o1 ++ responses_of o2.
Proof. apply omap_app. Qed.

Lemma run_responses_sendable es : ∀ s,
  (length (userResponse s) ≤ maxLength)%nat →
  Forall sendable (responses_of (run p s es).2).
Proof.
  induction es as [|e es IH]; intros s Hs; simpl; [constructor|].
  pose proof (step_keeps_cap s e Hs) as Hcap.
  pose proof (fun r => step_response s e r) as Hresp.
  destruct (step p s e) as [s1 o1]; simpl in *.
  specialize (IH s1 Hcap).
  destruct (run p s1 es) as [s2 o2]; simpl in *.
  rewrite responses_of_app. apply Forall_app. split; [|done].
  apply Forall_forall. intros r Hr.
  destruct (Hresp r Hr) as (_ & -> & Ht & _).
  split; [by apply trim_nonempty | done].
Qed.

End ResponseFacts.

(** C9. A [submit_response] is emitted only by the submit button, with the
    content of the text box, and only when that content is not blank after
    trimming; in any session every response sent has a character that is not
    white space and is at most 500 code units long. *)
Theorem submitted_responses_sendable (p : GameRoom.Props)
  (es : list GameRoom.Event) :
  Forall GameRoom.sendable
    (GameRoom.responses_of (GameRoom.run p (GameRoom.mount p).1 es).2)
  ∧ GameRoom.maxLength = 500%nat
  ∧ ∀ s e r, r ∈ GameRoom.responses_of (GameRoom.step p s e).2 →
      e = GameRoom.ClickSubmitResponse ∧ r = GameRoom.userResponse s
      ∧ JS.trim r ≠ [].
Proof.
  split; [|split; [done|]].
  - apply run_responses_sendable. simpl. lia.
  - intros s e r Hr. destruct (step_response p s e r Hr) as (-> & -> & Ht & _).
    repeat split. intros E. by rewrite E in Ht.
Qed.

Section CountdownFacts.
Import JS GameRoom.

Variable p : Props.

(** What a tick does. *)
Lemma tick_positive s :
  0 < timeRemaining s →
  timeRemaining (step p s Tick).1 = timeRemaining s - 1
  ∧ (step p s Tick).2 = [].
Proof.
  intros H. unfold step. simpl. unfold countdown_armed.
  by rewrite (proj2 (Z.ltb_lt _ _) H).
Qed.

Lemma tick_stopped s : timeRemaining s ≤ 0 → step p s Tick = (s, []).
Proof.
  intros H. unfold step. simpl. unfold countdown_armed.
  by rewrite (proj2 (Z.ltb_ge _ _) H).
Qed.

Lemma time_display_shown s : is_Some (time_display s) ↔ 0 < timeRemaining s.
Proof.
  unfold time_display. destruct (Z.ltb_spec 0 (timeRemaining s)); split.
  - done.
  - by eexists.
  - by intros [? [=]].
  - lia.
Qed.

End CountdownFacts.

Section WholeSeconds.
Import JS GameRoom.

Variable p : Props.

Lemma step_keeps_whole s e :
  0 ≤ timeRemaining s ≤ MAX_SAFE_INTEGER → whole_seconds e →
  0 ≤ timeRemaining (step p s e).1 ≤ MAX_SAFE_INTEGER.
Proof.
  intros Hs He. unfold step. destruct (enabled p s e) eqn:En; [|done].
  assert (Hd : ∀ t d, 0 ≤ d ≤ MAX_SAFE_INTEGER →
                 (∀ n, t = Some n → 0 ≤ n ≤ MAX_SAFE_INTEGER) →
                 0 ≤ num_or t d ≤ MAX_SAFE_INTEGER).
  { intros t d Hd Ht. unfold num_or. destruct t as [n|]; [|done].
    destruct (n =? 0); [done | by apply Ht]. }
  destruct e as [[]| | | | | |]; simpl in *; try done.
  - apply Hd; [by vm_compute|]. intros n ->. done.
  - apply Hd; [by vm_compute|]. intros n ->. done.
  - unfold submitResponse. by case_match.
  - unfold onClickCard, submitVote. by repeat case_match.
  - unfold onClickCard, submitVote. by repeat case_match.
  - unfold requestNewRound. by case_match.
  - unfold countdown_armed in En. apply Z.ltb_lt in En. lia.
Qed.

Lemma run_keeps_whole es : ∀ s,
  0 ≤ timeRemaining s ≤ MAX_SAFE_INTEGER → Forall whole_seconds es →
  0 ≤ timeRemaining (run p s es).1 ≤ MAX_SAFE_INTEGER.
Proof.
  induction es as [|e es IH]; intros s Hs Hes; simpl; [done|].
  inversion_clear Hes as [|? ? He Hes'].
  pose proof (step_keeps_whole s e Hs He) as H1.
  destruct (step p s e) as [s1 o1]; simpl in *.
  specialize (IH s1 H1 Hes').
  by destruct (run p s1 es) as [s2 o2].
Qed.

(** On whole seconds the integer countdown is the countdown on numbers. *)
Lemma tick_on_whole_number s :
  (tick_on_number (inject_Z (timeRemaining s))
   == inject_Z (timeRemaining (step p s Tick).1))%Q.
Proof.
  unfold tick_on_number.
  destruct (Qlt_le_dec 0 (inject_Z (timeRemaining s))) as [Hpos|Hneg].
  - change 0%Q with (inject_Z 0) in Hpos. rewrite <- Zlt_Qlt in Hpos.
    rewrite (proj1 (tick_positive p s Hpos)).
    unfold Z.sub. rewrite inject_Z_plus. reflexivity.
  - change 0%Q with (inject_Z 0) in Hneg. rewrite <- Zle_Qle in Hneg.
    by rewrite (tick_stopped p s Hneg).
Qed.

End WholeSeconds.

(** C10, as stated, fails: the countdown takes what the server sends, so a
    [new_round] with timeout -5 makes it negative at once; and a timeout
    that is not whole, 1.5 seconds, is counted down to 0.5 and then, still
    positive, to -0.5. *)
Lemma countdown_goes_negative :
  let p := {| GameRoom.socket := true; GameRoom.roomId := Some (JS.lit "R1");
              GameRoom.selectedRoomType := None |} in
  let s := (GameRoom.step p GameRoom.init
              (GameRoom.Server
                 (GameRoom.new_round (JS.lit "Q") (Some (-5))))).1 in
  GameRoom.listening p = true
  ∧ GameRoom.timeRemaining s = -5
  ∧ GameRoom.timeRemaining s < 0
  ∧ (GameRoom.tick_on_number (GameRoom.tick_on_number (3 # 2))
     == - (1 # 2))%Q
  ∧ (GameRoom.tick_on_number (GameRoom.tick_on_number (3 # 2)) < 0)%Q.
Proof. intros p s. repeat split. Qed.

(** C10, amended. For timeouts that are whole seconds, not negative and at
    most [MAX_SAFE_INTEGER], the countdown never becomes negative: started
    from such a value and fed such timeouts, [timeRemaining] stays between
    0 and [MAX_SAFE_INTEGER] whatever happens on the page.  A tick takes
    exactly one off while the value is positive and changes nothing once it
    is zero (no timeout is pending then), and the time is displayed exactly
    while the value is positive. *)
Theorem countdown_of_whole_seconds (p : GameRoom.Props) (s : GameRoom.State)
  (es : list GameRoom.Event) :
  0 ≤ GameRoom.timeRemaining s ≤ JS.MAX_SAFE_INTEGER →
  Forall GameRoom.whole_seconds es →
  0 ≤ GameRoom.timeRemaining (GameRoom.run p s es).1 ≤ JS.MAX_SAFE_INTEGER
  ∧ (∀ s0, 0 < GameRoom.timeRemaining s0 ≤ JS.MAX_SAFE_INTEGER →
       GameRoom.timeRemaining (GameRoom.step p s0 GameRoom.Tick).1
       = GameRoom.timeRemaining s0 - 1)
  ∧ (∀ s0, GameRoom.timeRemaining s0 ≤ 0 →
       GameRoom.step p s0 GameRoom.Tick = (s0, []))
  ∧ (∀ s0, is_Some (GameRoom.time_display s0)
           ↔ 0 < GameRoom.timeRemaining s0).
Proof.
  intros Hs Hes.
  split; [by apply run_keeps_whole|].
  split; [intros s0 [H0 _]; by apply tick_positive|].
  split; [intros s0 H0; by apply tick_stopped|].
  intros s0. apply time_display_shown.
Qed.

Lemma countdown_of_whole_seconds_witness :
  let p := {| GameRoom.socket := true; GameRoom.roomId := Some (JS.lit "R1");
              GameRoom.selectedRoomType := None |} in
  let es := [GameRoom.Server (GameRoom.new_round (JS.lit "Q") (Some 2));
             GameRoom.Tick; GameRoom.Tick; GameRoom.Tick] in
  0 ≤ GameRoom.timeRemaining (GameRoom.run p GameRoom.init es).1
    ≤ JS.MAX_SAFE_INTEGER
  ∧ GameRoom.timeRemaining (GameRoom.run p GameRoom.init es).1 = 0.
Proof.
  intros p es. split; [|reflexivity].
  refine (proj1 (countdown_of_whole_seconds p GameRoom.init es _ _)).
  - by vm_compute.
  - repeat constructor; by vm_compute.
Defined.

(** C3, as stated, fails: a [new_round] whose timeout is 0 starts the
    countdown at 90, not at the payload's value. *)
Lemma new_round_timeout_zero :
  let p := {| GameRoom.socket := true; GameRoom.roomId := Some (JS.lit "R1");
              GameRoom.selectedRoomType := None |} in
  let s := (GameRoom.step p GameRoom.init
              (GameRoom.Server (GameRoom.new_round (JS.lit "Q") (Some 0)))).1 in
  GameRoom.listening p = true
  ∧ GameRoom.countdown_per_spec (Some 0) 90 = 0
  ∧ GameRoom.timeRemaining s = 90
  ∧ GameRoom.timeRemaining s ≠ GameRoom.countdown_per_spec (Some 0) 90.
Proof. intros p s. repeat split. vm_compute. discriminate. Qed.

(** C3, amended. With its listeners registered, the client sets the
    countdown on [new_round] to the payload's timeout when that is present
    and not zero, and to 90 when it is absent or zero; on [voting_phase]
    likewise with 30; [judging_started] leaves the countdown as it is. *)
Theorem countdown_set_per_phase (p : GameRoom.Props) (s : GameRoom.State) :
  GameRoom.listening p = true →
  (∀ q t, t ≠ 0 →
     GameRoom.timeRemaining
       (GameRoom.step p s (GameRoom.Server (GameRoom.new_round q (Some t)))).1
     = t)
  ∧ (∀ q t, t = None ∨ t = Some 0 →
     GameRoom.timeRemaining
       (GameRoom.step p s (GameRoom.Server (GameRoom.new_round q t))).1 = 90)
  ∧ (∀ l r t, t ≠ 0 →
     GameRoom.timeRemaining
       (GameRoom.step p s
          (GameRoom.Server (GameRoom.voting_phase l r (Some t)))).1 = t)
  ∧ (∀ l r t, t = None ∨ t = Some 0 →
     GameRoom.timeRemaining
       (GameRoom.step p s (GameRoom.Server (GameRoom.voting_phase l r t))).1
     = 30)
  ∧ GameRoom.timeRemaining
      (GameRoom.step p s (GameRoom.Server GameRoom.judging_started)).1
    = GameRoom.timeRemaining s.
Proof.
  intros Hl. unfold GameRoom.step. simpl. rewrite Hl. simpl.
  repeat split.
  - intros _ t Ht. by rewrite (proj2 (Z.eqb_neq t 0) Ht).
  - by intros _ t [-> | ->].
  - intros _ _ t Ht. by rewrite (proj2 (Z.eqb_neq t 0) Ht).
  - by intros _ _ t [-> | ->].
Qed.

Lemma countdown_set_per_phase_witness :
  let p := {| GameRoom.socket := true; GameRoom.roomId := Some (JS.lit "R1");
              GameRoom.selectedRoomType := None |} in
  GameRoom.timeRemaining
    (GameRoom.step p GameRoom.init
       (GameRoom.Server (GameRoom.new_round (JS.lit "Q") (Some 45)))).1 = 45
  ∧ GameRoom.timeRemaining
      (GameRoom.step p GameRoom.init
         (GameRoom.Server (GameRoom.voting_phase [] [] None))).1 = 30.
Proof.
  intros p.
  pose proof (countdown_set_per_phase p GameRoom.init eq_refl)
    as (H1 & _ & _ & H4 & _).
  split; [apply H1; lia | apply H4; by left].
Defined.

(** ** The results panel *)

Section ResultsFacts.
Import JS.
Import ResultsDisplay.

Lemma human_is_not_ai : lit "human" ≠ lit "ai".
Proof. vm_compute. discriminate. Qed.

Lemma humanResponse_human r :
  left_is r = lit "human" → humanResponse r = left_response r.
Proof.
  intros H. unfold humanResponse, str_eqb. by rewrite bool_decide_eq_true_2.
Qed.

Lemma humanResponse_other r :
  left_is r ≠ lit "human" → humanResponse r = right_response r.
Proof.
  intros H. unfold humanResponse, str_eqb. by rewrite bool_decide_eq_false_2.
Qed.

Lemma aiResponse_ai r :
  left_is r = lit "ai" → aiResponse r = left_response r.
Proof.
  intros H. unfold aiResponse, str_eqb. by rewrite bool_decide_eq_true_2.
Qed.

Lemma aiResponse_other r :
  left_is r ≠ lit "ai" → aiResponse r = right_response r.
Proof.
  intros H. unfold aiResponse, str_eqb. by rewrite bool_decide_eq_false_2.
Qed.

End ResultsFacts.

(** C2. When the payload's [left_is] and [right_is] are ['human'] and ['ai']
    in some order, the panel puts [left_response] in the card headed
    "Human Response" and [right_response] in the card headed "AI Response"
    exactly when [left_is] is ['human'], and the other way round exactly
    when [left_is] is ['ai'].  The game screen shows the panel of the payload
    it received, and no event other than a [round_results] message changes
    the payload it keeps. *)
Theorem cards_follow_assignment (li ri : JS.jsstring) :
  ResultsDisplay.roles_assigned li ri →
  ((∀ r, ResultsDisplay.left_is r = li → ResultsDisplay.right_is r = ri →
      ResultsDisplay.text
        (ResultsDisplay.human_card (ResultsDisplay.ResultsDisplay r))
      = ResultsDisplay.left_response r
      ∧ ResultsDisplay.text
          (ResultsDisplay.ai_card (ResultsDisplay.ResultsDisplay r))
        = ResultsDisplay.right_response r)
   ↔ li = JS.lit "human")
  ∧ ((∀ r, ResultsDisplay.left_is r = li → ResultsDisplay.right_is r = ri →
      ResultsDisplay.text
        (ResultsDisplay.human_card (ResultsDisplay.ResultsDisplay r))
      = ResultsDisplay.right_response r
      ∧ ResultsDisplay.text
          (ResultsDisplay.ai_card (ResultsDisplay.ResultsDisplay r))
        = ResultsDisplay.left_response r)
   ↔ li = JS.lit "ai")
  ∧ (∀ r, ResultsDisplay.heading
            (ResultsDisplay.human_card (ResultsDisplay.ResultsDisplay r))
          = "Human Response"%string
        ∧ ResultsDisplay.heading
            (ResultsDisplay.ai_card (ResultsDisplay.ResultsDisplay r))
          = "AI Response"%string)
  ∧ (∀ p s r, GameRoom.listening p = true →
       GameRoom.panel
         (GameRoom.step p s (GameRoom.Server (GameRoom.round_results r))).1
       = GameRoom.ResultsPanel (ResultsDisplay.ResultsDisplay r))
  ∧ (∀ p s e, (∀ r, e ≠ GameRoom.Server (GameRoom.round_results r)) →
       GameRoom.results (GameRoom.step p s e).1 = GameRoom.results s).
Proof.
  intros Hroles.
  split; [|split; [|split; [|split]]].
  - split.
    + intros H. destruct Hroles as [[-> _] | [-> ->]]; [done|].
      destruct (H (ResultsDisplay.probe (JS.lit "ai") (JS.lit "human"))
                  eq_refl eq_refl)
        as [H1 _].
      vm_compute in H1. discriminate.
    + intros -> r Hl _. simpl.
      rewrite (humanResponse_human r Hl), aiResponse_other; [done|].
      rewrite Hl. apply human_is_not_ai.
  - split.
    + intros H. destruct Hroles as [[-> ->] | [-> _]]; [|done].
      destruct (H (ResultsDisplay.probe (JS.lit "human") (JS.lit "ai"))
                  eq_refl eq_refl)
        as [H1 _].
      vm_compute in H1. discriminate.
    + intros -> r Hl _. simpl.
      rewrite (aiResponse_ai r Hl), humanResponse_other; [done|].
      rewrite Hl. intros E. by apply human_is_not_ai.
  - done.
  - intros p s r Hl. unfold GameRoom.step. simpl. by rewrite Hl.
  - intros p s e He. unfold GameRoom.step.
    destruct (GameRoom.enabled p s e); [|done].
    destruct e as [[]| | | | | |]; simpl; try done.
    + by destruct (He data).
    + unfold GameRoom.submitResponse. by case_match.
    + unfold GameRoom.onClickCard, GameRoom.submitVote. by repeat case_match.
    + unfold GameRoom.onClickCard, GameRoom.submitVote. by repeat case_match.
    + unfold GameRoom.requestNewRound. by case_match.
Qed.

Lemma cards_follow_assignment_witness :
  let r := ResultsDisplay.probe (JS.lit "human") (JS.lit "ai") in
  ResultsDisplay.text
    (ResultsDisplay.human_card (ResultsDisplay.ResultsDisplay r))
  = JS.lit "L"
  ∧ ResultsDisplay.text
      (ResultsDisplay.ai_card (ResultsDisplay.ResultsDisplay r))
    = JS.lit "R".
Proof.
  intros r.
  pose proof (cards_follow_assignment (JS.lit "human") (JS.lit "ai")
                (or_introl (conj eq_refl eq_refl))) as [[_ H] _].
  exact (H eq_refl r eq_refl eq_refl).
Defined.

Section InterfaceFacts.
Import JS.
Import ResultsDisplay.

(** Look at the property the conformance test inspects next. *)
Ltac next_property H :=
  match type of H with
  | context [ ?m !! ?k ] =>
      let E := fresh "E" in
      destruct (m !! k) as [[]|] eqn:E; cbn in H; try discriminate H
  end.

(** A payload that conforms to the interface holds every declared field,
    and reading it gives the typed record, field by field. *)
Lemma conforming_payload_fields (v : jsval) :
  conforms Results_interface v = true →
  ∃ r, to_Results v = Some r
     ∧ get_path ["prompt"] v = Some (JStr (prompt r))
     ∧ get_path ["left_response"] v = Some (JStr (left_response r))
     ∧ get_path ["right_response"] v = Some (JStr (right_response r))
     ∧ get_path ["left_is"] v = Some (JStr (left_is r))
     ∧ get_path ["right_is"] v = Some (JStr (right_is r))
     ∧ get_path ["judge_verdict"; "human"; "human_prob"] v
       = Some (JNum (human_prob (human (judge_verdict r))))
     ∧ get_path ["judge_verdict"; "human"; "reasoning"] v
       = Some (JStr (reasoning (human (judge_verdict r))))
     ∧ get_path ["judge_verdict"; "ai"; "human_prob"] v
       = Some (JNum (human_prob (ai (judge_verdict r))))
     ∧ get_path ["judge_verdict"; "ai"; "reasoning"] v
       = Some (JStr (reasoning (ai (judge_verdict r))))
     ∧ get_path ["judge_verdict"; "correct"] v
       = Some (JBool (correct (judge_verdict r)))
     ∧ get_path ["player_votes"; "left"] v
       = Some (JNum (left (player_votes r)))
     ∧ get_path ["player_votes"; "right"] v
       = Some (JNum (right (player_votes r)))
     ∧ get_path ["player_accuracy"] v = Some (JNum (player_accuracy r))
     ∧ get_path ["correct_votes"] v = Some (JNum (correct_votes r))
     ∧ get_path ["total_votes"] v = Some (JNum (total_votes r)).
Proof.
  intros H. destruct v as [| | | | |m]; try discriminate H.
  cbn in H.
  do 19 next_property H.
  unfold to_Results, to_JudgeVerdict, to_PlayerVotes, to_Verdict,
    get_str, get_num, get_bool, get_obj, get_path, get.
  cbn.
  repeat match goal with
         | E : ?m !! ?k = Some _ |- context [ ?m !! ?k ] => rewrite E; cbn
         end.
  eexists. split; [reflexivity|]. cbn. repeat split.
Qed.

(** A conforming payload is rendered, as the page of its typed record. *)
Lemma conforming_payload_renders (v : jsval) :
  conforms Results_interface v = true →
  ∃ r, to_Results v = Some r ∧ render_payload v = Some (raw_of r).
Proof.
  intros H. destruct v as [| | | | |m]; try discriminate H.
  cbn in H.
  do 19 next_property H.
  unfold to_Results, to_JudgeVerdict, to_PlayerVotes, to_Verdict,
    get_str, get_num, get_bool, get_obj, get, render_payload, read.
  cbn.
  repeat match goal with
         | E : ?m !! ?k = Some _ |- context [ ?m !! ?k ] => rewrite E; cbn
         end.
  eexists. split; [reflexivity|].
  unfold raw_of, humanResponse, aiResponse. cbn.
  repeat match goal with
         | |- context [ str_eqb ?x ?y ] => destruct (str_eqb x y); cbn
         end.
  all: reflexivity.
Qed.

(** A property can be read off a value only if the value is neither
    [null] nor [undefined]; and what was read, if something is read off it
    in turn, is a property the value holds. *)
Lemma read_get (k j : string) (v z w : jsval) :
  read k v = Some z → read j z = Some w → get k v = Some z ∧ present z.
Proof.
  intros Hz Hw.
  assert (Hp : present z) by (split; intros ->; discriminate Hw).
  split; [|done].
  destruct v; simpl in Hz; try discriminate Hz; try done.
  all: injection Hz as <-; by destruct Hp.
Qed.

(** What rendering cannot do without: it reads members of
    [judge_verdict.human], of [judge_verdict.ai] and of [player_votes]. *)
Lemma rendering_needs (v : jsval) (view : RawView) :
  render_payload v = Some view →
  ∃ h a pv,
    get_path ["judge_verdict"; "human"] v = Some h ∧ present h
    ∧ get_path ["judge_verdict"; "ai"] v = Some a ∧ present a
    ∧ get_path ["player_votes"] v = Some pv ∧ present pv.
Proof.
  unfold render_payload. intros H.
  apply bind_Some in H as (li & _ & H).
  apply bind_Some in H as (lr & _ & H).
  apply bind_Some in H as (rr & _ & H). cbv zeta in H.
  apply bind_Some in H as (pr & _ & H).
  apply bind_Some in H as (ht & _ & H).
  apply bind_Some in H as (jv & Hjv & H).
  apply bind_Some in H as (h & Hh & H).
  apply bind_Some in H as (hp & Hhp & H).
  apply bind_Some in Hhp as (hp' & Hhp & _).
  apply bind_Some in H as (hr & _ & H).
  apply bind_Some in H as (at_ & _ & H).
  apply bind_Some in H as (a & Ha & H).
  apply bind_Some in H as (ap & Hap & H).
  apply bind_Some in Hap as (ap' & Hap & _).
  apply bind_Some in H as (ar & _ & H).
  apply bind_Some in H as (c & _ & H).
  apply bind_Some in H as (pa & _ & H).
  apply bind_Some in H as (cv & _ & H).
  apply bind_Some in H as (tv & _ & H).
  apply bind_Some in H as (pv & Hpv & H).
  apply bind_Some in H as (va & Hva & _).
  apply bind_Some in Hva as (va' & Hva & _).
  destruct (read_get _ _ _ _ _ Hjv Hh) as [Gjv _].
  destruct (read_get _ _ _ _ _ Hh Hhp) as [Gh Ph].
  destruct (read_get _ _ _ _ _ Ha Hap) as [Ga Pa].
  destruct (read_get _ _ _ _ _ Hpv Hva) as [Gpv Ppv].
  exists h, a, pv. cbn [get_path].
  rewrite Gjv, Gpv. cbn. rewrite Gh, Ga. done.
Qed.

(** The page of a typed record shows what the typed panel shows. *)
Lemma raw_of_ResultsDisplay (r : Results) :
  let w := ResultsDisplay r in
  raw_prompt (raw_of r) = JStr (prompt_box w)
  ∧ raw_text (raw_human (raw_of r)) = JStr (text (human_card w))
  ∧ raw_reasoning (raw_human (raw_of r))
    = JStr (verdict_reasoning (human_card w))
  ∧ raw_text (raw_ai (raw_of r)) = JStr (text (ai_card w))
  ∧ raw_reasoning (raw_ai (raw_of r)) = JStr (verdict_reasoning (ai_card w))
  ∧ raw_judge_mark (raw_of r) = judge_accuracy w
  ∧ (raw_correct_votes (raw_of r), raw_total_votes (raw_of r))
    = (JNum (correct_over_total w).1, JNum (correct_over_total w).2)
  ∧ raw_votes_A (raw_of r) = JNum (votes_A w)
  ∧ raw_votes_B (raw_of r) = JNum (votes_B w).
Proof. done. Qed.

(** The payload of the announced shape conforms to the interface. *)
Lemma sample_payload_conforms :
  conforms Results_interface sample_payload = true.
Proof. by vm_compute. Qed.

(** The three objects the panel reads into are enough for a page: every
    text on it is empty then, and every percentage not a number. *)
Lemma bare_payload_is_rendered :
  GameRoom.results_panel bare_payload
  = Some {| raw_prompt := JUndefined;
            raw_human := {| raw_text := JUndefined; raw_prob := JUndefined;
                            raw_reasoning := JUndefined |};
            raw_ai := {| raw_text := JUndefined; raw_prob := JUndefined;
                         raw_reasoning := JUndefined |};
            raw_judge_mark := false;
            raw_accuracy := JUndefined;
            raw_correct_votes := JUndefined;
            raw_total_votes := JUndefined;
            raw_votes_A := JUndefined;
            raw_votes_B := JUndefined |}.
Proof. by vm_compute. Qed.

(** C4, as stated, fails: the page renders a payload that has neither
    [prompt] nor [right_is].  Nothing checks the payload against the
    interface; the prompt box is then empty, and [right_is] is never
    read. *)
Lemma payload_without_prompt_is_rendered :
  ∃ m view,
    payload_without_prompt = JObj m
    ∧ m !! "prompt" = None
    ∧ m !! "right_is" = None
    ∧ conforms Results_interface payload_without_prompt = false
    ∧ GameRoom.results_panel payload_without_prompt = Some view
    ∧ raw_prompt view = JUndefined
    ∧ raw_text (raw_human view) = JStr (lit "wet, mostly")
    ∧ raw_text (raw_ai view) = JStr (lit "Rain is liquid precipitation.").
Proof.
  eexists _, _. split; [reflexivity|].
  repeat split; by vm_compute.
Qed.

(** C4, amended. A [round_results] payload the client renders holds
    [judge_verdict.human], [judge_verdict.ai] and [player_votes], none of
    them [null] or [undefined]: the panel reads members of these three.
    A payload that conforms to [interface Results] is always rendered; it
    holds every field the interface declares, and the page is the page of
    the typed record read from it. *)
Theorem rendered_payload_fields (v : jsval) :
  (∀ view, GameRoom.results_panel v = Some view →
     ∃ h a pv,
       get_path ["judge_verdict"; "human"] v = Some h ∧ present h
       ∧ get_path ["judge_verdict"; "ai"] v = Some a ∧ present a
       ∧ get_path ["player_votes"] v = Some pv ∧ present pv)
  ∧ (conforms Results_interface v = true →
     ∃ r, to_Results v = Some r
        ∧ GameRoom.results_panel v = Some (raw_of r)
        ∧ get_path ["prompt"] v = Some (JStr (prompt r))
        ∧ get_path ["left_response"] v = Some (JStr (left_response r))
        ∧ get_path ["right_response"] v = Some (JStr (right_response r))
        ∧ get_path ["left_is"] v = Some (JStr (left_is r))
        ∧ get_path ["right_is"] v = Some (JStr (right_is r))
        ∧ get_path ["judge_verdict"; "human"; "human_prob"] v
          = Some (JNum (human_prob (human (judge_verdict r))))
        ∧ get_path ["judge_verdict"; "human"; "reasoning"] v
          = Some (JStr (reasoning (human (judge_verdict r))))
        ∧ get_path ["judge_verdict"; "ai"; "human_prob"] v
          = Some (JNum (human_prob (ai (judge_verdict r))))
        ∧ get_path ["judge_verdict"; "ai"; "reasoning"] v
          = Some (JStr (reasoning (ai (judge_verdict r))))
        ∧ get_path ["judge_verdict"; "correct"] v
          = Some (JBool (correct (judge_verdict r)))
        ∧ get_path ["player_votes"; "left"] v
          = Some (JNum (left (player_votes r)))
        ∧ get_path ["player_votes"; "right"] v
          = Some (JNum (right (player_votes r)))
        ∧ get_path ["player_accuracy"] v = Some (JNum (player_accuracy r))
        ∧ get_path ["correct_votes"] v = Some (JNum (correct_votes r))
        ∧ get_path ["total_votes"] v = Some (JNum (total_votes r))).
Proof.
  split.
  - intros view H. unfold GameRoom.results_panel in H.
    destruct (truthy v); [|discriminate H].
    by apply rendering_needs with view.
  - intros Hc.
    destruct (conforming_payload_fields v Hc) as (r & Hr & Hfields).
    destruct (conforming_payload_renders v Hc) as (r' & Hr' & Hview).
    assert (r' = r) as -> by congruence.
    exists r. split; [done|]. split; [|done].
    unfold GameRoom.results_panel.
    destruct v; try discriminate Hc. done.
Qed.

End InterfaceFacts.

(** ** The ranking page *)

Section LeaderboardFacts.
Import JS.
Import Leaderboard.

Lemma consistent_init : consistent init.
Proof.
  split; [|done]. unfold period_options. simpl.
  do 3 (apply elem_of_cons; right). apply elem_of_cons. by left.
Qed.

Lemma consistent_setLoading s b : consistent s → consistent (setLoading s b).
Proof. done. Qed.

Lemma consistent_handle s e :
  enabled e = true → consistent s → consistent (handle s e).
Proof.
  intros En [Hp Hr]. destruct e as [v|v|d|]; simpl in *.
  - apply bool_decide_eq_true in En. by split.
  - apply bool_decide_eq_true in En. split; [done|].
    simpl. intros t. destruct (truthy_str v) eqn:Hv; [|done].
    by intros [= <-].
  - by split.
  - by split.
Qed.

Lemma consistent_step s e : consistent s → consistent (step s e).1.
Proof.
  intros Hs. unfold step. destruct (enabled e) eqn:En; [|done].
  pose proof (consistent_handle s e En Hs) as Hh.
  unfold effect. case_match; [done|]. by apply consistent_setLoading.
Qed.

Lemma consistent_run es : ∀ s, consistent s → consistent (run s es).1.
Proof.
  induction es as [|e es IH]; intros s Hs; simpl; [done|].
  pose proof (consistent_step s e Hs) as H1.
  destruct (step s e) as [s1 o1]; simpl in *.
  specialize (IH s1 H1). by destruct (run s1 es).
Qed.

Lemma period_is_not_room_type : lit "period" ≠ lit "room_type".
Proof. vm_compute. discriminate. Qed.

Lemma param_here name v rest ep :
  param name {| endpoint := ep; params := (name, v) :: rest |} = Some v.
Proof.
  unfold param, str_eqb. simpl. by rewrite bool_decide_eq_true_2.
Qed.

Lemma param_skip name k v rest ep :
  k ≠ name →
  param name {| endpoint := ep; params := (k, v) :: rest |}
  = param name {| endpoint := ep; params := rest |}.
Proof.
  intros H. unfold param, str_eqb. simpl. by rewrite bool_decide_eq_false_2.
Qed.

(** The request [fetchLeaderboard] issues agrees with the selections. *)
Lemma fetchLeaderboard_ok s :
  consistent s →
  Forall (request_ok (fetchLeaderboard s).1) (fetchLeaderboard s).2.
Proof.
  intros [Hp Hr]. unfold fetchLeaderboard. simpl.
  apply Forall_cons. split; [|constructor].
  unfold request_ok, roomType_select_value, str_or. simpl.
  destruct (roomType s) as [t|] eqn:Ht.
  - destruct (Hr t eq_refl) as [_ Htr]. rewrite Htr. simpl.
    rewrite param_here.
    rewrite param_skip by apply period_is_not_room_type.
    rewrite param_here.
    split; [done|]. split; [done|]. split.
    + split; [|by eexists]. intros _ ->. done.
    + by intros ? [= <-].
  - rewrite param_here.
    rewrite param_skip by apply period_is_not_room_type.
    split; [done|]. split; [done|].
    split; [|done]. split; [by intros [? [=]] | done].
Qed.

(** Opening the page, choosing "Poetry", then "Daily", then "All Rooms". *)
Example a_leaderboard_session :
  map params
    (mount.2
     ++ (run mount.1 [ChangeRoomType (lit "poetry"); FetchRejected;
                      ChangePeriod (lit "daily");
                      ChangeRoomType (lit "")]).2)
  = [ [(lit "period", lit "all_time")];
      [(lit "period", lit "all_time"); (lit "room_type", lit "poetry")];
      [(lit "period", lit "daily"); (lit "room_type", lit "poetry")];
      [(lit "period", lit "daily")] ].
Proof. vm_compute. reflexivity. Qed.

Lemma step_requests_ok s e :
  consistent s → Forall (request_ok (step s e).1) (step s e).2.
Proof.
  intros Hs. unfold step. destruct (enabled e) eqn:En; [|constructor].
  pose proof (consistent_handle s e En Hs) as Hh.
  unfold effect. case_match; [constructor|]. by apply fetchLeaderboard_ok.
Qed.

(** C8. Every request for the leaderboard, the one issued when the page
    opens and each one issued after a change of selection, carries the
    selected period, one of [daily], [weekly], [monthly], [all_time], and
    carries a room type (the selected one) exactly when the room-type
    selection is not "All Rooms". *)
Theorem leaderboard_requests_ok (es : list Event) (e : Event) :
  Forall (request_ok mount.1) mount.2
  ∧ mount.2 ≠ []
  ∧ Forall (request_ok (step (run mount.1 es).1 e).1)
           (step (run mount.1 es).1 e).2
  ∧ period_options = [lit "daily"; lit "weekly"; lit "monthly"; lit "all_time"].
Proof.
  split; [apply fetchLeaderboard_ok, consistent_init|].
  split; [done|]. split; [|done].
  apply step_requests_ok, consistent_run.
  apply (consistent_setLoading init true), consistent_init.
Qed.

End LeaderboardFacts.

(** ** The stored records *)

Section SchemaFacts.
Import Schema.

Lemma bind_Ok {A B} (r : result A) (k : A → result B) b :
  bind r k = Ok b → ∃ a, r = Ok a ∧ k a = Ok b.
Proof. destruct r as [a|e]; simpl; [by exists a | done]. Qed.

(** A built row holds, for each column, the value computed for it. *)
Lemma build_row_lookup now t given cols : ∀ r,
  NoDup (map name cols) →
  build_row now t given cols = Ok r →
  ∀ c, c ∈ cols →
    ∃ v, column_value now t given c = Ok v ∧ r !! name c = Some v.
Proof.
  induction cols as [|c0 cols IH]; intros r Hnd Hb c Hc.
  - by apply elem_of_nil in Hc.
  - simpl in Hb. apply bind_Ok in Hb as (v0 & Hv0 & Hb).
    apply bind_Ok in Hb as (r0 & Hr0 & Hb). injection Hb as <-.
    apply NoDup_cons in Hnd as [Hnotin Hnd].
    apply elem_of_cons in Hc as [-> | Hc].
    + exists v0. split; [done|]. apply lookup_insert_eq.
    + destruct (IH r0 Hnd Hr0 c Hc) as (v & Hv & Hl).
      exists v. split; [done|]. rewrite lookup_insert_ne; [done|].
      intros E. apply Hnotin. rewrite E. apply list_elem_of_fmap.
      by exists c.
Qed.

Lemma insert_inserted cols now t given t' :
  insert cols now t given = Ok t' →
  ∃ r, build_row now t given cols = Ok r ∧ inserted t' = Some r
       ∧ rows t' = rows t ++ [r].
Proof.
  unfold insert. case_match; [done|].
  intros (r & Hr & [= <-])%bind_Ok. exists r. split; [done|].
  unfold inserted. simpl. by rewrite last_snoc.
Qed.

Lemma taken_false t c v :
  (∀ r, r ∈ rows t → r !! name c ≠ Some v) → taken t c v = false.
Proof.
  intros H. unfold taken. apply not_true_iff_false.
  intros (r & Hr & Hd)%existsb_exists.
  apply bool_decide_eq_true in Hd. apply (H r); [|done].
  by apply list_elem_of_In.
Qed.

Lemma game_sessions_names : NoDup (map name game_sessions).
Proof. apply (bool_decide_unpack _). vm_compute. exact I. Qed.

Lemma training_batches_names : NoDup (map name training_batches).
Proof. apply (bool_decide_unpack _). vm_compute. exact I. Qed.

Lemma length_substring_le n s : (String.length (substring 0 n s) ≤ n)%nat.
Proof.
  revert s. induction n as [|n IH]; intros [|c s]; simpl; try lia.
  specialize (IH s). lia.
Qed.

Lemma to_varchar_Ok c n s w :
  to_varchar c n s = Ok w →
  ∃ s', w = Str s' ∧ (String.length s' ≤ n)%nat
        ∧ ((String.length s ≤ n)%nat → s' = s).
Proof.
  unfold to_varchar. case_bool_decide as Hlen.
  - intros [= <-]. by exists s.
  - case_match; [|done]. intros [= <-]. eexists. split; [done|].
    split; [apply length_substring_le | lia].
Qed.

(** Membership in a list written out. *)
Ltac in_list := repeat (apply elem_of_cons; first [ by left | right ]).

Lemma given_columns_known (k : string) (v : value) (cols : list column) :
  k ∈ map name cols →
  bool_decide (dom ({[ k := v ]} : gmap string value)
               ⊆ list_to_set (map name cols)) = true.
Proof.
  intros H. apply bool_decide_eq_true_2. rewrite dom_singleton_L.
  apply singleton_subseteq_l, elem_of_list_to_set, H.
Qed.

Ltac singleton_lookups :=
  repeat (first [ rewrite lookup_singleton_eq
                | rewrite lookup_singleton_ne by done ]; simpl).

(** C6. The [game_sessions] table has a column for each of [room_type],
    [prompt], [human_response], [ai_response], [judge_prediction] and
    [actual_labels], and [created_at] for the timestamp.  A row is stored
    only when a prompt is given and is not null, and what it stores as the
    prompt is the text of the value given; a row inserted without a
    [created_at] gets the time of insertion.  A row giving the prompt alone
    is accepted: the room type, both responses, the judge's prediction and
    the labels are then null. *)
Theorem game_session_record (now : Z) (t : table) (p : string) :
  sequence_ahead t →
  Forall (fun n => n ∈ map name game_sessions)
    ["room_type"; "prompt"; "human_response"; "ai_response";
     "judge_prediction"; "actual_labels"; "created_at"]
  ∧ (∀ given t', insert game_sessions now t given = Ok t' →
       ∃ r v, inserted t' = Some r
            ∧ given !! "prompt" = Some v ∧ v ≠ NULL
            ∧ r !! "prompt" = Some (Str (text_of v))
            ∧ (given !! "created_at" = None →
               r !! "created_at" = Some (Time now)))
  ∧ ∃ t', insert game_sessions now t {[ "prompt" := Str p ]} = Ok t'
        ∧ inserted t'
          = Some (list_to_map
                    [("id", Int (next_serial t)); ("room_type", NULL);
                     ("prompt", Str p); ("human_response", NULL);
                     ("ai_response", NULL); ("judge_prediction", NULL);
                     ("actual_labels", NULL); ("created_at", Time now)]).
Proof.
  intros [Hint Hfresh]. split; [|split].
  - repeat (apply Forall_cons; split; [simpl; in_list|]). constructor.
  - intros given t' Hins.
    destruct (insert_inserted _ _ _ _ _ Hins) as (r & Hr & Hlast & _).
    pose proof (build_row_lookup _ _ _ _ r game_sessions_names Hr) as Hcols.
    destruct (Hcols (NOT_NULL (col "prompt" TEXT))) as (v & Hv & Hl);
      [unfold game_sessions; in_list|].
    destruct (Hcols (WITH_DEFAULT DEFAULT_NOW (col "created_at" TIMESTAMP)))
      as (w & Hw & Hlw); [unfold game_sessions; in_list|].
    simpl in Hl, Hlw.
    assert (Hcreated : given !! "created_at" = None →
                       r !! "created_at" = Some (Time now)).
    { intros Hnone. unfold column_value, coerce in Hw. simpl in Hw.
      rewrite Hnone in Hw. simpl in Hw. by injection Hw as <-. }
    unfold column_value, coerce in Hv. simpl in Hv.
    destruct (given !! "prompt") as [g|] eqn:Hg; [|discriminate Hv].
    exists r, g. simpl in Hv.
    destruct g; simpl in Hv; try discriminate Hv; injection Hv as <-;
      repeat split; done.
  - unfold insert. rewrite given_columns_known by (simpl; in_list).
    simpl. unfold column_value, coerce. simpl. singleton_lookups.
    rewrite Hint. simpl. rewrite taken_false by (simpl; done). simpl.
    eexists. split; [reflexivity|]. unfold inserted. simpl.
    by rewrite last_snoc.
Qed.

Lemma game_session_record_witness :
  ∃ t', insert game_sessions 1700000000 empty_table
          {[ "prompt" := Str "Describe rain." ]} = Ok t'
      ∧ inserted t'
        = Some (list_to_map
                  [("id", Int 1); ("room_type", NULL);
                   ("prompt", Str "Describe rain."); ("human_response", NULL);
                   ("ai_response", NULL); ("judge_prediction", NULL);
                   ("actual_labels", NULL);
                   ("created_at", Time 1700000000)]).
Proof.
  refine (proj2 (proj2 (game_session_record 1700000000 empty_table
                          "Describe rain." _))).
  split; [reflexivity|]. intros r Hr. simpl in Hr. by apply elem_of_nil in Hr.
Defined.

(** A prompt need not be given as text: an integer is stored as its
    digits, a timestamp as its ISO form. *)
Lemma prompt_is_cast_to_text :
  (∃ t' r, insert game_sessions 1700000000 empty_table
             {[ "prompt" := Int 42 ]} = Ok t'
         ∧ inserted t' = Some r ∧ r !! "prompt" = Some (Str "42"))
  ∧ (∃ t' r, insert game_sessions 1700000000 empty_table
               {[ "prompt" := Time 1700000000 ]} = Ok t'
           ∧ inserted t' = Some r
           ∧ r !! "prompt" = Some (Str "2023-11-14 22:13:20")).
Proof. split; eexists _, _; repeat split; by vm_compute. Qed.

(** C7, as stated, fails: the table stores a batch whose status is none of
    [pending], [running], [done], [failed]. *)
Lemma training_batch_status_unrestricted :
  ∃ t' r, insert training_batches 0 empty_table
            {[ "status" := Str "cancelled" ]} = Ok t'
        ∧ inserted t' = Some r
        ∧ r !! "status" = Some (Str "cancelled")
        ∧ "cancelled" ∉ status_values.
Proof.
  unfold insert. rewrite given_columns_known by (simpl; in_list).
  simpl. unfold column_value, coerce. simpl. singleton_lookups.
  do 2 eexists. split; [reflexivity|]. split; [reflexivity|].
  split; [by simplify_map_eq|].
  apply (bool_decide_unpack _). vm_compute. exact I.
Qed.

(** C7, amended. A training batch inserted without an explicit status has
    status ['pending']; a status given explicitly is stored as it is when it
    has at most 20 characters, whatever it says; and the status of every
    stored batch is null or a string of at most 20 characters.  The table
    does not restrict it to a fixed set. *)
Theorem training_batch_status (now : Z) (t t' : table)
  (given : gmap string value) :
  insert training_batches now t given = Ok t' →
  ∃ r, inserted t' = Some r
     ∧ (given !! "status" = None → r !! "status" = Some (Str "pending"))
     ∧ (∀ s, given !! "status" = Some (Str s) → (String.length s ≤ 20)%nat →
             r !! "status" = Some (Str s))
     ∧ (r !! "status" = Some NULL
        ∨ ∃ s, r !! "status" = Some (Str s) ∧ (String.length s ≤ 20)%nat).
Proof.
  intros Hins.
  destruct (insert_inserted _ _ _ _ _ Hins) as (r & Hr & Hlast & _).
  pose proof (build_row_lookup _ _ _ _ r training_batches_names Hr) as Hcols.
  destruct (Hcols (WITH_DEFAULT (DEFAULT (Str "pending"))
                     (col "status" (VARCHAR 20))))
    as (v & Hv & Hl); [unfold training_batches; in_list|].
  simpl in Hl. exists r. split; [done|].
  unfold column_value in Hv. apply bind_Ok in Hv as (w & Hw & Hv).
  simpl in Hw.
  destruct (given !! "status") as [g|] eqn:Hg; simpl in Hw.
  - destruct g; unfold coerce in Hw; simpl in Hw;
      [ injection Hw as <-; simpl in Hv; injection Hv as <-;
        repeat split; try done; by left | .. ];
      apply to_varchar_Ok in Hw as (s' & -> & Hlen & Hsame);
      simpl in Hv; injection Hv as <-;
      (split; [done|]);
      (split; [|right; by exists s']);
      intros s0 [= <-] Hs0; rewrite Hl; by rewrite Hsame.
  - unfold coerce in Hw. simpl in Hw.
    apply to_varchar_Ok in Hw as (s' & -> & Hlen & Hsame).
    assert (s' = "pending"%string) as Hs' by (apply Hsame; simpl; lia).
    subst s'.
    simpl in Hv. injection Hv as <-.
    split; [done|]. split; [done|]. right. eexists. split; [done|].
    simpl. lia.
Qed.

Lemma training_batch_status_witness :
  ∃ t' r, insert training_batches 0 empty_table ∅ = Ok t'
        ∧ inserted t' = Some r
        ∧ r !! "status" = Some (Str "pending").
Proof.
  assert (H : insert training_batches 0 empty_table ∅
              = Ok {| rows := [list_to_map
                                 [("id", Int 1);
                                  ("misclassified_examples", NULL);
                                  ("model_version", NULL);
                                  ("training_started_at", NULL);
                                  ("status", Str "pending")]];
                      next_serial := 2 |}).
  { unfold insert.
    rewrite bool_decide_eq_true_2
      by (rewrite dom_empty_L; apply empty_subseteq).
    reflexivity. }
  destruct (training_batch_status 0 empty_table _ ∅ H) as (r & Hr & Hp & _).
  eexists _, r. split; [exact H|]. split; [exact Hr|]. by apply Hp.
Defined.

End SchemaFacts.

(** ** The room engine *)

Section RoomFacts.
Import Room.

Lemma step_armed_current r e : armed_current r → armed_current (step r e).1.
Proof.
  intros H. unfold armed_current in *.
  destruct e; simpl; repeat case_match; simpl; try done;
    try (intros ? [= <-]; done);
    try (simplify_eq; simpl; intros ? [= <-]; done).
Qed.

Lemma run_armed_current es : ∀ r,
  armed_current r → armed_current (run r es).
Proof.
  induction es as [|e es IH]; intros r Hr; simpl; [done|].
  by apply IH, step_armed_current.
Qed.

(** The round counter never goes back. *)
Lemma step_round_mono r e : (round r ≤ round (step r e).1)%nat.
Proof.
  destruct e; simpl; repeat case_match; simplify_eq; simpl; lia.
Qed.

Lemma run_round_mono es : ∀ r, (round r ≤ round (run r es))%nat.
Proof.
  induction es as [|e es IH]; intros r; simpl; [lia|].
  pose proof (step_round_mono r e). specialize (IH (step r e).1). lia.
Qed.

(** A timer armed before the players moved the room on to another round
    finds, when it fires, a room it no longer belongs to. *)
Lemma overtaken_timer_changes_nothing r es tag :
  armed_current r → armed r = Some tag → round (run r es) ≠ round r →
  step (run r es) (TimerFired tag) = (run r es, []).
Proof.
  intros Hr Ha Hmoved. rewrite (Hr tag Ha). simpl.
  rewrite bool_decide_eq_false_2; [done|]. by intros E.
Qed.

(** C5. In every room, whatever led to it, the firing of a deadline timer
    whose tag is not the room's current round changes nothing: the room is
    as before and nothing is sent or scheduled. *)
Theorem stale_timer_is_noop (r : Room) (tag : nat) :
  tag ≠ round r → step r (TimerFired tag) = (r, []).
Proof.
  intros Hstale. simpl. by rewrite bool_decide_eq_false_2.
Qed.

(** Two players join (round 1, response timer tagged 1); both answer before
    the deadline, the judge returns, both vote, and a new round is asked
    for (round 2).  The timer of round 1 then fires. *)
Lemma stale_timer_is_noop_witness :
  let r := run new_room
             [Join 1; Join 2;
              SubmitResponse 1 "a"; SubmitResponse 2 "b";
              JudgeReturned true;
              CastVote 1 Left; CastVote 2 Right;
              RequestNewRound]%nat in
  round r = 2%nat ∧ phase r = Responding ∧ armed r = Some 2%nat
  ∧ step r (TimerFired 1) = (r, []).
Proof.
  intros r.
  assert (Hround : round r = 2%nat) by (vm_compute; reflexivity).
  split; [exact Hround|]. split; [vm_compute; reflexivity|].
  split; [vm_compute; reflexivity|].
  apply stale_timer_is_noop. rewrite Hround. lia.
Defined.

End RoomFacts.

(** * Further properties of the game screen *)

Section GameRoomSessions.
Import JS GameRoom.

Variable p : Props.

(** Off the response panel nothing is sent as a response, and only a
    [new_round] brings the panel back. *)
Lemma step_off_responding s e :
  gameState s ≠ responding → is_new_round e = false →
  gameState (step p s e).1 ≠ responding ∧ responses_of (step p s e).2 = [].
Proof.
  intros Hs He. unfold step. destruct (enabled p s e) eqn:En; [|done].
  destruct e as [[]| | | | | |]; simpl in *; try done.
  - apply andb_true_iff in En as [En _].
    by apply bool_decide_eq_true in En.
  - unfold onClickCard, submitVote. by repeat case_match.
  - unfold onClickCard, submitVote. by repeat case_match.
  - unfold requestNewRound. by case_match.
Qed.

Lemma step_on_responding s e :
  is_new_round e = false →
  responses_of (step p s e).2 = []
  ∨ (responses_of (step p s e).2 = [userResponse s]
     ∧ gameState (step p s e).1 = waiting).
Proof.
  intros He. unfold step. destruct (enabled p s e) eqn:En; [|by left].
  destruct e as [[]| | | | | |]; simpl in *; try done; try by left.
  - unfold submitResponse. case_match; [by left | by right].
  - unfold onClickCard, submitVote. repeat case_match; by left.
  - unfold onClickCard, submitVote. repeat case_match; by left.
  - unfold requestNewRound. case_match; by left.
Qed.

Lemma run_off_responding es : ∀ s,
  gameState s ≠ responding →
  Forall (fun e => is_new_round e = false) es →
  responses_of (run p s es).2 = [].
Proof.
  induction es as [|e es IH]; intros s Hs Hes; simpl; [done|].
  inversion_clear Hes as [|? ? He Hes'].
  destruct (step_off_responding s e Hs He) as [H1 H2].
  destruct (step p s e) as [s1 o1]; simpl in *.
  specialize (IH s1 H1 Hes').
  destruct (run p s1 es) as [s2 o2]; simpl in *.
  by rewrite responses_of_app, H2, IH.
Qed.

(** X1. Between two [new_round] messages the page sends at most one
    response: once one is sent the response panel is gone until the next
    round starts. *)
Theorem one_response_per_round (s : State) (es : list Event) :
  Forall (fun e => is_new_round e = false) es →
  (length (responses_of (run p s es).2) ≤ 1)%nat.
Proof.
  revert s. induction es as [|e es IH]; intros s Hes; simpl; [lia|].
  inversion_clear Hes as [|? ? He Hes'].
  destruct (step_on_responding s e He) as [H1 | [H1 H2]].
  - destruct (step p s e) as [s1 o1]; simpl in *.
    specialize (IH s1 Hes').
    destruct (run p s1 es) as [s2 o2]; simpl in *.
    by rewrite responses_of_app, H1.
  - destruct (step p s e) as [s1 o1]; simpl in *.
    assert (Hoff : gameState s1 ≠ responding) by (by rewrite H2).
    pose proof (run_off_responding es s1 Hoff Hes') as H3.
    destruct (run p s1 es) as [s2 o2]; simpl in *.
    rewrite responses_of_app, H1, H3. simpl. lia.
Qed.

End GameRoomSessions.

Lemma one_response_per_round_witness :
  let p := {| GameRoom.socket := true; GameRoom.roomId := Some (JS.lit "R1");
              GameRoom.selectedRoomType := None |} in
  let s := (GameRoom.step p GameRoom.init
              (GameRoom.Server
                 (GameRoom.new_round (JS.lit "Describe rain.") None))).1 in
  let es := [GameRoom.ChangeResponse (JS.lit "wet");
             GameRoom.ClickSubmitResponse; GameRoom.ClickSubmitResponse;
             GameRoom.ChangeResponse (JS.lit "very wet");
             GameRoom.ClickSubmitResponse] in
  GameRoom.responses_of (GameRoom.run p s es).2 = [JS.lit "wet"]
  ∧ (length (GameRoom.responses_of (GameRoom.run p s es).2) ≤ 1)%nat.
Proof.
  intros p s es. split; [vm_compute; reflexivity|].
  apply one_response_per_round. repeat constructor.
Defined.

Section GameRoomEffects.
Import JS GameRoom.

Variable p : Props.

Lemma requests_of_app o1 o2 :
  new_round_requests_of (o1 ++ o2)
  = new_round_requests_of o1 ++ new_round_requests_of o2.
Proof. apply omap_app. Qed.

Lemma step_off_results s e :
  gameState s ≠ results_ → is_round_results e = false →
  gameState (step p s e).1 ≠ results_
  ∧ new_round_requests_of (step p s e).2 = [].
Proof.
  intros Hs He. unfold step. destruct (enabled p s e) eqn:En; [|done].
  destruct e as [[]| | | | | |]; simpl in *; try done.
  - unfold submitResponse. by case_match.
  - unfold onClickCard, submitVote. by repeat case_match.
  - unfold onClickCard, submitVote. by repeat case_match.
  - apply andb_true_iff in En as [En _].
    by apply bool_decide_eq_true in En.
Qed.

Lemma step_on_results s e :
  is_round_results e = false →
  new_round_requests_of (step p s e).2 = []
  ∨ (new_round_requests_of (step p s e).2 = [roomId p]
     ∧ gameState (step p s e).1 = waiting).
Proof.
  intros He. unfold step. destruct (enabled p s e) eqn:En; [|by left].
  destruct e as [[]| | | | | |]; simpl in *; try done; try by left.
  - unfold submitResponse. case_match; by left.
  - unfold onClickCard, submitVote. repeat case_match; by left.
  - unfold onClickCard, submitVote. repeat case_match; by left.
  - unfold requestNewRound. case_match; [by left | by right].
Qed.

Lemma run_off_results es : ∀ s,
  gameState s ≠ results_ →
  Forall (fun e => is_round_results e = false) es →
  new_round_requests_of (run p s es).2 = [].
Proof.
  induction es as [|e es IH]; intros s Hs Hes; simpl; [done|].
  inversion_clear Hes as [|? ? He Hes'].
  destruct (step_off_results s e Hs He) as [H1 H2].
  destruct (step p s e) as [s1 o1]; simpl in *.
  specialize (IH s1 H1 Hes').
  destruct (run p s1 es) as [s2 o2]; simpl in *.
  by rewrite requests_of_app, H2, IH.
Qed.

(** X2. Between two [round_results] messages the page asks for a new round
    at most once: the button goes away with the results panel. *)
Theorem one_request_per_results (s : State) (es : list Event) :
  Forall (fun e => is_round_results e = false) es →
  (length (new_round_requests_of (run p s es).2) ≤ 1)%nat.
Proof.
  revert s. induction es as [|e es IH]; intros s Hes; simpl; [lia|].
  inversion_clear Hes as [|? ? He Hes'].
  destruct (step_on_results s e He) as [H1 | [H1 H2]].
  - destruct (step p s e) as [s1 o1]; simpl in *.
    specialize (IH s1 Hes').
    destruct (run p s1 es) as [s2 o2]; simpl in *.
    by rewrite requests_of_app, H1.
  - destruct (step p s e) as [s1 o1]; simpl in *.
    assert (Hoff : gameState s1 ≠ results_) by (by rewrite H2).
    pose proof (run_off_results es s1 Hoff Hes') as H3.
    destruct (run p s1 es) as [s2 o2]; simpl in *.
    rewrite requests_of_app, H1, H3. simpl. lia.
Qed.

(** X3. What one event makes the page do has its place: a response is sent
    only by the submit button of the response panel and is the content of
    the text box; a vote only by a click on a card of the voting panel with
    no vote selected yet, and it is that card's side; a request for a new
    round only from the results panel; an [alert] only for an [error]
    message.  Every emission carries the room id of the route, and no event
    joins or leaves a room. *)
Theorem effects_have_their_place (s : State) (e : Event) (x : Effect) :
  x ∈ (step p s e).2 → origin_ok p s e x.
Proof.
  unfold step. destruct (enabled p s e) eqn:En; simpl;
    [|by intros ?%elem_of_nil].
  destruct e as [[]| | | | | |]; simpl in *;
    try (by intros ?%elem_of_nil).
  - by intros ->%list_elem_of_singleton.
  - apply andb_true_iff in En as [En _]. apply bool_decide_eq_true in En.
    unfold submitResponse. case_match; simpl; [by intros ?%elem_of_nil|].
    by intros ->%list_elem_of_singleton.
  - apply bool_decide_eq_true in En. unfold onClickCard, submitVote.
    destruct (selectedVote s) eqn:Hv; [by intros ?%elem_of_nil|].
    case_match; simpl; [by intros ?%elem_of_nil|].
    intros ->%list_elem_of_singleton. simpl. repeat split; try done.
    by left.
  - apply bool_decide_eq_true in En. unfold onClickCard, submitVote.
    destruct (selectedVote s) eqn:Hv; [by intros ?%elem_of_nil|].
    case_match; simpl; [by intros ?%elem_of_nil|].
    intros ->%list_elem_of_singleton. simpl. repeat split; try done.
    by right.
  - apply andb_true_iff in En as [En _]. apply bool_decide_eq_true in En.
    unfold requestNewRound. case_match; simpl; [by intros ?%elem_of_nil|].
    by intros ->%list_elem_of_singleton.
Qed.

Lemma init_is_inert e : listening p = false → step p init e = (init, []).
Proof.
  intros Hl. unfold step. destruct e as [[]| | | | | |]; simpl;
    by rewrite ?Hl.
Qed.

(** X4. Without a socket or without a room id in the route the page does
    nothing: it joins no room, stays on the waiting panel whatever comes,
    sends nothing and leaves no room when it goes. *)
Theorem inert_without_listeners (es : list Event) :
  listening p = false →
  (mount p).2 = [] ∧ run p (mount p).1 es = (init, []) ∧ unmount p = [].
Proof.
  intros Hl. unfold mount, unmount. rewrite Hl. simpl.
  split; [done|]. split; [|done].
  induction es as [|e es IH]; simpl; [done|].
  by rewrite (init_is_inert e Hl), IH.
Qed.

End GameRoomEffects.

Lemma one_request_per_results_witness :
  let p := {| GameRoom.socket := true; GameRoom.roomId := Some (JS.lit "R1");
              GameRoom.selectedRoomType := None |} in
  let s := (GameRoom.step p GameRoom.init
              (GameRoom.Server
                 (GameRoom.round_results
                    (ResultsDisplay.probe (JS.lit "human") (JS.lit "ai"))))).1
  in
  let es := [GameRoom.ClickPlayAnotherRound; GameRoom.ClickPlayAnotherRound;
             GameRoom.Tick; GameRoom.ClickPlayAnotherRound] in
  GameRoom.new_round_requests_of (GameRoom.run p s es).2
  = [Some (JS.lit "R1")]
  ∧ (length (GameRoom.new_round_requests_of (GameRoom.run p s es).2) ≤ 1)%nat.
Proof.
  intros p s es. split; [vm_compute; reflexivity|].
  apply one_request_per_results. repeat constructor.
Defined.

Lemma effects_have_their_place_witness :
  let p := {| GameRoom.socket := true; GameRoom.roomId := Some (JS.lit "R1");
              GameRoom.selectedRoomType := None |} in
  let s := (GameRoom.step p GameRoom.init
              (GameRoom.Server
                 (GameRoom.voting_phase (JS.lit "a") (JS.lit "b") None))).1 in
  GameRoom.origin_ok p s GameRoom.ClickRightCard
    (GameRoom.submit_vote (Some (JS.lit "R1")) GameRoom.vote_right).
Proof.
  intros p s. apply effects_have_their_place.
  vm_compute. apply list_elem_of_here.
Defined.

Lemma inert_without_listeners_witness :
  let p := {| GameRoom.socket := false; GameRoom.roomId := Some (JS.lit "R1");
              GameRoom.selectedRoomType := None |} in
  GameRoom.run p (GameRoom.mount p).1
    [GameRoom.Server (GameRoom.new_round (JS.lit "Q") None);
     GameRoom.ChangeResponse (JS.lit "x"); GameRoom.ClickSubmitResponse;
     GameRoom.Tick]
  = (GameRoom.init, []).
Proof.
  intros p.
  exact (proj1 (proj2 (inert_without_listeners p _ eq_refl))).
Defined.

Section GameRoomClock.
Import JS GameRoom.

Variable p : Props.

Lemma tick_leaves_the_rest s :
  let s' := (step p s Tick).1 in
  gameState s' = gameState s ∧ userResponse s' = userResponse s
  ∧ selectedVote s' = selectedVote s ∧ results s' = results s
  ∧ currentPrompt s' = currentPrompt s ∧ (step p s Tick).2 = [].
Proof. unfold step. simpl. by case_match. Qed.

(** X5. Left alone for [n] seconds, a countdown standing at a whole
    number [t] of seconds, not negative and at most [MAX_SAFE_INTEGER],
    stands at [t - n], or at 0 once [n] has reached [t]; the seconds going
    by send nothing and change neither the panel nor what the player typed
    or voted. *)
Theorem countdown_after_seconds (s : State) (n : nat) :
  0 ≤ timeRemaining s ≤ MAX_SAFE_INTEGER →
  let s' := (run p s (seconds n)).1 in
  timeRemaining s' = Z.max 0 (timeRemaining s - Z.of_nat n)
  ∧ (run p s (seconds n)).2 = []
  ∧ gameState s' = gameState s ∧ userResponse s' = userResponse s
  ∧ selectedVote s' = selectedVote s.
Proof.
  unfold seconds. revert s.
  induction n as [|n IH]; intros s [Hs Hmax]; simpl.
  - repeat split. lia.
  - pose proof (tick_leaves_the_rest s) as (Hg & Hu & Hv & _ & _ & Ho).
    assert (Ht : timeRemaining (step p s Tick).1
                 = Z.max 0 (timeRemaining s - 1)).
    { destruct (Z.ltb_spec 0 (timeRemaining s)) as [Hpos|Hz].
      - rewrite (proj1 (tick_positive p s Hpos)). lia.
      - rewrite (tick_stopped p s Hz). simpl. lia. }
    destruct (step p s Tick) as [s1 o1]; simpl in *. subst o1.
    assert (H1 : 0 ≤ timeRemaining s1 ≤ MAX_SAFE_INTEGER) by lia.
    specialize (IH s1 H1). simpl in IH.
    destruct (run p s1 (repeat Tick n)) as [s2 o2]; simpl in *.
    destruct IH as (I1 & I2 & I3 & I4 & I5).
    repeat split; try congruence. lia.
Qed.


End GameRoomClock.

Lemma countdown_after_seconds_witness :
  let p := {| GameRoom.socket := true; GameRoom.roomId := Some (JS.lit "R1");
              GameRoom.selectedRoomType := None |} in
  let s := (GameRoom.step p GameRoom.init
              (GameRoom.Server (GameRoom.new_round (JS.lit "Q") (Some 3)))).1
  in
  GameRoom.timeRemaining (GameRoom.run p s (GameRoom.seconds 2)).1 = 1
  ∧ GameRoom.timeRemaining (GameRoom.run p s (GameRoom.seconds 5)).1 = 0.
Proof.
  intros p s. split.
  - refine (proj1 (countdown_after_seconds p s 2 _)). by vm_compute.
  - refine (proj1 (countdown_after_seconds p s 5 _)). by vm_compute.
Defined.


Section BlankResponses.
Import JS GameRoom.

Lemma trim_start_nil (r : jsstring) :
  trim_start r = [] ↔ Forall (fun c => is_white_space c = true) r.
Proof.
  induction r as [|c r IH]; simpl.
  - split; [constructor | done].
  - destruct (is_white_space c) eqn:Hc.
    + rewrite IH. split; [by constructor | by inversion 1].
    + split; [done|]. inversion 1. congruence.
Qed.

(** What [trim_start] leaves is either nothing or starts with a character
    that is not white space, so it is all white space only when empty. *)
Lemma trim_start_blank (r : jsstring) :
  Forall (fun c => is_white_space c = true) (trim_start r) →
  trim_start r = [].
Proof.
  induction r as [|c r IH]; simpl; [done|].
  destruct (is_white_space c) eqn:Hc; [done|].
  inversion 1. congruence.
Qed.

Lemma trim_nil (r : jsstring) :
  trim r = [] ↔ Forall (fun c => is_white_space c = true) r.
Proof.
  unfold trim, trim_end. split.
  - intros H. apply trim_start_nil, trim_start_blank.
    apply (f_equal (@rev N)) in H. rewrite rev_involutive in H. simpl in H.
    apply trim_start_nil in H. apply Forall_rev in H.
    by rewrite rev_involutive in H.
  - intros H. apply trim_start_nil in H. by rewrite H.
Qed.

(** X7. The submit button is disabled exactly when the text box holds
    nothing but white space (or nothing at all); pressed then, it would
    send nothing either. *)
Theorem submit_disabled_iff_blank (p : Props) (s : State) :
  (submit_disabled s = true
   ↔ Forall (fun c => is_white_space c = true) (userResponse s))
  ∧ (submit_disabled s = true → submitResponse p s = (s, [])).
Proof.
  unfold submit_disabled, submitResponse. split.
  - rewrite <- trim_nil. destruct (trim (userResponse s)); simpl; split;
      done.
  - intros ->. by rewrite orb_true_r.
Qed.

End BlankResponses.

(** * Further properties of the results panel *)

Section ResultsEdges.
Import JS.
Import ResultsDisplay.

(** X8. The panel never looks at [right_is]: changing it changes nothing on
    the page.  What decides is [left_is] alone: when it is ['human'] or
    ['ai'] the two cards show the two responses, one each; when it is
    anything else both cards show [right_response] and [left_response] is
    shown in neither. *)
Theorem cards_depend_on_left_is_alone (r : Results) (ri : jsstring) :
  ResultsDisplay (with_right_is r ri) = ResultsDisplay r
  ∧ (left_is r = lit "human" ∨ left_is r = lit "ai" →
     [text (human_card (ResultsDisplay r)); text (ai_card (ResultsDisplay r))]
     ≡ₚ [left_response r; right_response r])
  ∧ (left_is r ≠ lit "human" → left_is r ≠ lit "ai" →
     text (human_card (ResultsDisplay r)) = right_response r
     ∧ text (ai_card (ResultsDisplay r)) = right_response r).
Proof.
  split; [done|]. split.
  - intros [Hl | Hl]; simpl.
    + rewrite (humanResponse_human r Hl), aiResponse_other; [done|].
      rewrite Hl. apply human_is_not_ai.
    + rewrite (aiResponse_ai r Hl), humanResponse_other.
      * apply Permutation_swap.
      * rewrite Hl. intros E. by apply human_is_not_ai.
  - intros Hh Ha. simpl.
    by rewrite humanResponse_other, aiResponse_other.
Qed.

End ResultsEdges.

(** * Further properties of the ranking page *)

Section LeaderboardEdges.
Import JS.
Import Leaderboard.

Lemma effect_selection before after :
  period (effect before after).1 = period after
  ∧ roomType (effect before after).1 = roomType after.
Proof. unfold effect. by case_match. Qed.

(** X9. The page asks the server again exactly when an event changed the
    selected period or room type, and then once: choosing what is already
    selected, or an answer arriving or failing, issues no request. *)
Theorem request_exactly_on_change (s : State) (e : Event) :
  (length (step s e).2 ≤ 1)%nat
  ∧ ((step s e).2 ≠ []
     ↔ period (step s e).1 ≠ period s ∨ roomType (step s e).1 ≠ roomType s).
Proof.
  unfold step. destruct (enabled e); simpl.
  2:{ split; [lia|]. split; [done | by intros [|]]. }
  destruct (effect_selection s (handle s e)) as [Hp Hr].
  rewrite Hp, Hr. unfold effect.
  destruct (bool_decide (period s = period (handle s e))) eqn:E1;
    destruct (bool_decide (roomType s = roomType (handle s e))) eqn:E2;
    simpl; (split; [lia|]);
    try apply bool_decide_eq_true in E1; try apply bool_decide_eq_true in E2;
    try apply bool_decide_eq_false in E1;
    try apply bool_decide_eq_false in E2.
  - split; [done|]. intros [H|H]; by destruct H.
  - split; [|done]. intros _. right. by intros E.
  - split; [|done]. intros _. left. by intros E.
  - split; [|done]. intros _. left. by intros E.
Qed.

(** X10. Each selection box shows what was last chosen in it: after an
    option of the period box is chosen it is the selected period, and after
    an option of the room-type box is chosen, "All Rooms" included, it is
    the value the box shows. *)
Theorem selects_show_the_choice (s : State) (v : jsstring) :
  (v ∈ period_options → period (step s (ChangePeriod v)).1 = v)
  ∧ (v ∈ roomType_options →
     roomType_select_value (step s (ChangeRoomType v)).1 = v).
Proof.
  split; intros Hv; unfold step; simpl;
    rewrite bool_decide_eq_true_2 by done.
  - by destruct (effect_selection s (setPeriod s v)) as [-> _].
  - unfold roomType_select_value.
    destruct (effect_selection s
                (setRoomType s (if truthy_str v then Some v else None)))
      as [_ ->].
    simpl. destruct v; simpl; done.
Qed.

End LeaderboardEdges.

(** * Further properties of the stored records *)

Section SchemaInvariants.
Import Schema.

Lemma build_row_dom now t given cols : ∀ r,
  build_row now t given cols = Ok r →
  dom r = list_to_set (map name cols).
Proof.
  induction cols as [|c cols IH]; intros r Hb; simpl in *.
  - injection Hb as <-. apply dom_empty_L.
  - apply bind_Ok in Hb as (v & _ & Hb).
    apply bind_Ok in Hb as (r0 & Hr0 & Hb). injection Hb as <-.
    by rewrite dom_insert_L, (IH r0 Hr0).
Qed.

Lemma coerce_fits c v w :
  coerce c v = Ok w → w = NULL ∨ fits c w.
Proof.
  unfold coerce. destruct v as [|z|s|j|tm]; [intros [= <-]; by left|..];
    destruct (type c) as [| |n| | |] eqn:Ht; simpl; try done;
    try (intros [= <-]; right; simpl; by eauto);
    try (intros (s' & -> & Hlen & _)%to_varchar_Ok; right; simpl; right;
         by exists n);
    case_match; try done; intros [= <-]; right; simpl; split; by eauto.
Qed.

Lemma column_value_fits now t given c v :
  column_value now t given c = Ok v → fits c v.
Proof.
  unfold column_value. intros (w & Hw & Hv)%bind_Ok.
  destruct (coerce_fits _ _ _ Hw) as [-> | Hfit].
  - simpl in Hv. destruct (refuses_null c) eqn:Hn; [done|].
    by injection Hv as <-.
  - destruct (is_null w) eqn:Hnull.
    + destruct w; try done. destruct (refuses_null c); [done|].
      by injection Hv as <-.
    + case_match; [done|]. by injection Hv as <-.
Qed.

Lemma column_value_not_taken now t given c v :
  column_value now t given c = Ok v → must_be_unique c = true →
  v ≠ NULL → taken t c v = false.
Proof.
  unfold column_value. intros (w & Hw & Hv)%bind_Ok Hu Hnn.
  destruct (is_null w) eqn:Hnull.
  - destruct w; try done. destruct (refuses_null c); [done|].
    by injection Hv as <-.
  - rewrite Hu in Hv. simpl in Hv.
    destruct (taken t c w) eqn:Ht; [done|]. by injection Hv as <-.
Qed.

(** X11. Whatever the table, an insertion that succeeds adds exactly one
    row, after the rows already there and without touching them; the row
    has a value for every column of the table and for nothing else, each
    value one its column can hold; and the sequence never goes back. *)
Theorem insert_adds_a_well_formed_row (cols : list column) (now : Z)
  (t t' : table) (given : gmap string value) :
  NoDup (map name cols) →
  insert cols now t given = Ok t' →
  ∃ r, rows t' = rows t ++ [r]
     ∧ dom r = list_to_set (map name cols)
     ∧ (∀ c, c ∈ cols → ∃ v, r !! name c = Some v ∧ fits c v)
     ∧ next_serial t ≤ next_serial t'.
Proof.
  intros Hnd Hins.
  destruct (insert_inserted _ _ _ _ _ Hins) as (r & Hr & _ & Hrows).
  exists r. split; [done|]. split; [by eapply build_row_dom|]. split.
  - intros c Hc.
    destruct (build_row_lookup _ _ _ _ r Hnd Hr c Hc) as (v & Hv & Hl).
    exists v. split; [done|]. by eapply column_value_fits.
  - unfold insert in Hins. case_match; [done|].
    apply bind_Ok in Hins as (r' & _ & [= <-]). simpl. case_match; lia.
Qed.

(** X12. A column declared unique or the primary key stays free of
    duplicates: if no two rows share a value in it before an insertion that
    succeeds, none do after. *)
Theorem unique_columns_stay_unique (cols : list column) (now : Z)
  (t t' : table) (given : gmap string value) (c : column) :
  NoDup (map name cols) → c ∈ cols → must_be_unique c = true →
  distinct_on c t →
  insert cols now t given = Ok t' →
  distinct_on c t'.
Proof.
  intros Hnd Hc Hu Hdist Hins.
  destruct (insert_inserted _ _ _ _ _ Hins) as (r & Hr & _ & Hrows).
  destruct (build_row_lookup _ _ _ _ r Hnd Hr c Hc) as (v & Hv & Hl).
  assert (Hfresh : ∀ i ri, rows t !! i = Some ri → v ≠ NULL →
                           ri !! name c ≠ Some v).
  { intros i ri Hi Hnn Hri.
    pose proof (column_value_not_taken _ _ _ _ _ Hv Hu Hnn) as Hnt.
    apply not_true_iff_false in Hnt. apply Hnt.
    unfold taken. apply existsb_exists. exists ri. split.
    - apply list_elem_of_In, list_elem_of_lookup. by exists i.
    - by apply bool_decide_eq_true. }
  intros i j ri rj w Hi Hj Hri Hrj Hw. rewrite Hrows in Hi, Hj.
  apply lookup_app_Some in Hi as [Hi | [Hilen Hi]];
    apply lookup_app_Some in Hj as [Hj | [Hjlen Hj]].
  - by apply (Hdist i j ri rj w).
  - apply list_lookup_singleton_Some in Hj as [_ <-].
    assert (w = v) as -> by congruence. by destruct (Hfresh i ri Hi Hw).
  - apply list_lookup_singleton_Some in Hi as [_ <-].
    assert (w = v) as -> by congruence. by destruct (Hfresh j rj Hj Hw).
  - apply list_lookup_singleton_Some in Hi as [Hi0 _].
    apply list_lookup_singleton_Some in Hj as [Hj0 _]. lia.
Qed.

Ltac listed := repeat (apply elem_of_cons; first [ by left | right ]).

Ltac given_only :=
  repeat (first [ rewrite lookup_singleton_eq
                | rewrite lookup_singleton_ne by done ]; simpl).

Lemma players_names : NoDup (map name players).
Proof. apply (bool_decide_unpack _). vm_compute. exact I. Qed.

(** X13. A player registered by user name alone (of at most 50 characters)
    starts with no wins, no detection score and no games played, and takes
    the next id; but when a row already has that user name, the insertion
    is refused and the table stays as it is. *)
Theorem new_player (now : Z) (t : table) (u : string) :
  sequence_ahead t → (String.length u ≤ 50)%nat →
  insert players now t {[ "username" := Str u ]}
  = if taken t (UNIQUE (col "username" (VARCHAR 50))) (Str u)
    then Err (unique_violation "username")
    else Ok {| rows := rows t
                       ++ [list_to_map
                             [("id", Int (next_serial t));
                              ("username", Str u);
                              ("human_wins", Int 0);
                              ("ai_detection_score", Int 0);
                              ("games_played", Int 0)]];
               next_serial := next_serial t + 1 |}.
Proof.
  intros [Hint Hfresh] Hlen.
  unfold insert. rewrite given_columns_known by (simpl; listed).
  simpl. unfold column_value, coerce, to_varchar. simpl. given_only.
  rewrite Hint. simpl. rewrite taken_false by (simpl; done). simpl.
  rewrite bool_decide_eq_true_2 by done. simpl.
  by destruct (taken t _ (Str u)).
Qed.

End SchemaInvariants.

Lemma insert_ada :
  Schema.insert Schema.players 0 Schema.empty_table
    {[ "username" := Schema.Str "ada" ]}
  = Schema.Ok Schema.one_player.
Proof. vm_compute. reflexivity. Qed.

Lemma one_player_sequence_ahead : Schema.sequence_ahead Schema.one_player.
Proof.
  split; [reflexivity|]. intros r Hr.
  apply list_elem_of_singleton in Hr as ->. vm_compute. discriminate.
Qed.

Lemma insert_adds_a_well_formed_row_witness :
  ∃ r, Schema.rows Schema.one_player = [] ++ [r]
     ∧ r !! "games_played" = Some (Schema.Int 0).
Proof.
  destruct (insert_adds_a_well_formed_row _ _ _ _ _ players_names insert_ada)
    as (r & Hrows & _).
  exists r. split; [exact Hrows|].
  simpl in Hrows. injection Hrows as <-. reflexivity.
Defined.

Lemma unique_columns_stay_unique_witness :
  Schema.distinct_on
    (Schema.UNIQUE (Schema.col "username" (Schema.VARCHAR 50)))
    Schema.one_player
  ∧ length (Schema.rows Schema.one_player) = 1%nat.
Proof.
  split; [|reflexivity].
  refine (unique_columns_stay_unique Schema.players 0 Schema.empty_table
            Schema.one_player {[ "username" := Schema.Str "ada" ]}
            (Schema.UNIQUE (Schema.col "username" (Schema.VARCHAR 50)))
            players_names _ eq_refl _ insert_ada).
  - unfold Schema.players.
    repeat (apply elem_of_cons; first [ by left | right ]).
  - intros i j ri rj v Hi. simpl in Hi. by rewrite lookup_nil in Hi.
Defined.

Lemma new_player_witness :
  Schema.insert Schema.players 5 Schema.one_player
    {[ "username" := Schema.Str "ada" ]}
  = Schema.Err (Schema.unique_violation "username")
  ∧ ∃ t', Schema.insert Schema.players 5 Schema.one_player
            {[ "username" := Schema.Str "bob" ]} = Schema.Ok t'
          ∧ Schema.next_serial t' = 3.
Proof.
  split.
  - rewrite (new_player 5 Schema.one_player "ada" one_player_sequence_ahead)
      by (simpl; lia).
    reflexivity.
  - rewrite (new_player 5 Schema.one_player "bob" one_player_sequence_ahead)
      by (simpl; lia).
    eexists. split; reflexivity.
Defined.

(** * The lobby *)

Section LobbyFacts.
Import JS.
Import Lobby.

Lemma own_types_truthy ty : ty ∈ own_types → truthy_str ty = true.
Proof.
  unfold own_types. simpl. intros Hin.
  repeat (apply elem_of_cons in Hin as [-> | Hin]; [done|]).
  by apply elem_of_nil in Hin.
Qed.

Lemma room_type_id_own t : t ∈ ROOM_TYPES → id t ∈ own_types.
Proof.
  intros H. unfold own_types. apply elem_of_cons. right.
  apply list_elem_of_fmap. by exists t.
Qed.

(** The type selected in the lobby is the initial one or one on offer. *)
Lemma step_selectedType s e :
  selectedType s ∈ own_types → selectedType (step s e).1 ∈ own_types.
Proof.
  intros Hs. unfold step. destruct (enabled s e) eqn:En; [|done].
  destruct e; simpl in *; try done.
  apply bool_decide_eq_true in En. by apply room_type_id_own.
Qed.

Lemma run_selectedType es : ∀ s,
  selectedType s ∈ own_types → selectedType (run s es).1 ∈ own_types.
Proof.
  induction es as [|e es IH]; intros s Hs; simpl; [done|].
  pose proof (step_selectedType s e Hs) as H1.
  destruct (step s e) as [s1 o1]; simpl in *.
  specialize (IH s1 H1). by destruct (run s1 es).
Qed.

Lemma init_selectedType : selectedType init ∈ own_types.
Proof. unfold own_types. apply elem_of_cons. by left. Qed.

Lemma ROOM_TYPES_at_in i t : ROOM_TYPES_at i = Some t → t ∈ ROOM_TYPES.
Proof.
  unfold ROOM_TYPES_at. case_match; [done|].
  intros Hl. apply list_elem_of_lookup. by eexists.
Qed.

(** X14. The lobby sends the player to a room only together with a room
    type stored for the game screen to find, and only to a path under
    [/room/]; it changes nothing of its own state in doing so.  From the
    form the room is the name typed, which is then not blank: with a blank
    name the form only alerts. *)
Theorem navigation_comes_with_a_type (s : State) (e : Event) :
  (∀ path, navigate path ∈ (step s e).2 →
     ∃ ty target,
       (step s e).2 = [setItem (lit "selectedRoomType") ty;
                       navigate (lit "/room/" ++ target)]
       ∧ (step s e).1 = s
       ∧ (e = ClickCreateRoom → target = roomName s ∧ trim target ≠ []))
  ∧ (trim (roomName s) = [] →
     step s ClickCreateRoom
     = (s, [alert (lit "Please enter a room name")])).
Proof.
  split.
  - intros path. unfold step. destruct (enabled s e) eqn:En; simpl;
      [|by intros ?%elem_of_nil].
    destruct e; simpl; try (by intros ?%elem_of_nil).
    + unfold fetchRooms. rewrite list_elem_of_singleton. done.
    + unfold createRoom.
      destruct (truthy_str (trim (roomName s))) eqn:Ht; simpl.
      * intros _. exists (selectedType s), (roomName s).
        repeat split. intros E. by rewrite E in Ht.
      * rewrite list_elem_of_singleton. done.
    + intros _. exists (room_type room), (room_key room). by repeat split.
    + unfold quickPlay. case_match.
      * intros _. eexists _, _. by repeat split.
      * rewrite list_elem_of_singleton. done.
  - intros Hb. unfold step, enabled, handle, createRoom. by rewrite Hb.
Qed.

(** X15. Whatever [Math.random] returns within its range, from 0 up to but
    not 1, Quick Play finds a room type: it stores the id of one of the
    four on offer and goes to the room named after the clock, never
    failing on a type that is not there. *)
Theorem quickPlay_picks_a_listed_type (now : Z) (random : Q) :
  (0 <= random)%Q → (random < 1)%Q →
  ∃ t, t ∈ ROOM_TYPES
     ∧ quickPlay now random
       = [setItem (lit "selectedRoomType") (id t);
          navigate (lit "/room/" ++ lit "room-" ++ decimal now)].
Proof.
  intros H0 H1. unfold quickPlay.
  set (i := Qfloor (random * inject_Z (Z.of_nat (length ROOM_TYPES)))).
  assert (Hi : 0 ≤ i < 4).
  { subst i. simpl length. change (inject_Z (Z.of_nat 4)) with (4 # 1).
    split.
    - change 0 with (Qfloor 0). apply Qfloor_resp_le.
      by apply Qmult_le_0_compat.
    - rewrite Zlt_Qlt.
      eapply Qle_lt_trans; [apply Qfloor_le|].
      apply (Qmult_lt_compat_r random 1 (4 # 1)); [reflexivity | done]. }
  destruct (ROOM_TYPES_at i) as [t|] eqn:Ht.
  - exists t. split; [by eapply ROOM_TYPES_at_in | done].
  - exfalso. unfold ROOM_TYPES_at in Ht.
    destruct (Z.ltb_spec i 0) as [|_]; [lia|].
    apply lookup_ge_None in Ht. simpl in Ht. lia.
Qed.

(** X16. What the lobby stores is what the game screen joins with.  A
    room type stored by the form or by Quick Play, in any session of the
    lobby, is one of the lobby's own and is sent as it is in [join_room];
    in general the game screen sends the stored type unless it is empty,
    and then ['general']. *)
Theorem stored_type_is_joined_with (es : list Event) (e : Event)
  (ty rid : jsstring) :
  truthy_str rid = true →
  GameRoom.mount (game_props rid ty)
  = (GameRoom.init,
     [GameRoom.join_room (Some rid)
        (if truthy_str ty then ty else lit "general")])
  ∧ (setItem (lit "selectedRoomType") ty ∈ (step (run init es).1 e).2 →
     (∀ r, e ≠ ClickRoom r) →
     ty ∈ own_types
     ∧ GameRoom.mount (game_props rid ty)
       = (GameRoom.init, [GameRoom.join_room (Some rid) ty])).
Proof.
  intros Hrid.
  assert (Hmount : GameRoom.mount (game_props rid ty)
                   = (GameRoom.init,
                      [GameRoom.join_room (Some rid)
                         (if truthy_str ty then ty else lit "general")])).
  { unfold GameRoom.mount, GameRoom.listening. simpl. by rewrite Hrid. }
  split; [done|]. intros Hin Hne.
  assert (Hown : ty ∈ own_types).
  { pose proof (run_selectedType es init init_selectedType) as Hsel.
    revert Hin. unfold step.
    destruct (enabled (run init es).1 e) eqn:En; simpl;
      [|by intros ?%elem_of_nil].
    destruct e; cbn [handle snd]; try (by intros ?%elem_of_nil).
    - unfold fetchRooms. rewrite list_elem_of_singleton. done.
    - unfold createRoom.
      destruct (negb (truthy_str (trim (roomName (run init es).1)))).
      + rewrite list_elem_of_singleton. done.
      + rewrite !elem_of_cons. intros [[= ->] | [? | H]]; try done.
        by apply elem_of_nil in H.
    - by destruct (Hne room).
    - unfold quickPlay. destruct (ROOM_TYPES_at _) as [t|] eqn:Ht.
      + rewrite !elem_of_cons. intros [[= ->] | [? | H]]; try done.
        * by eapply room_type_id_own, ROOM_TYPES_at_in.
        * by apply elem_of_nil in H.
      + rewrite list_elem_of_singleton. done. }
  split; [done|]. rewrite Hmount. by rewrite (own_types_truthy ty Hown).
Qed.

End LobbyFacts.

Lemma navigation_comes_with_a_type_example :
  (Lobby.run Lobby.mount.1
     [Lobby.ClickCreateRoom;
      Lobby.ChangeRoomName (JS.lit "den");
      Lobby.ClickRoomType
        {| Lobby.id := JS.lit "debate"; Lobby.name := JS.lit "Debate";
           Lobby.icon := [0xD83D; 0xDCAC]%N;
           Lobby.description := JS.lit "Argue and persuade" |};
      Lobby.ClickCreateRoom]).2
  = [Lobby.alert (JS.lit "Please enter a room name");
     Lobby.setItem (JS.lit "selectedRoomType") (JS.lit "debate");
     Lobby.navigate (JS.lit "/room/den")].
Proof. vm_compute. reflexivity. Qed.

Lemma quickPlay_picks_a_listed_type_witness :
  ∃ t, t ∈ Lobby.ROOM_TYPES
     ∧ Lobby.quickPlay 1700000000000 (3 # 4)
       = [Lobby.setItem (JS.lit "selectedRoomType") (Lobby.id t);
          Lobby.navigate (JS.lit "/room/room-1700000000000")].
Proof.
  refine (quickPlay_picks_a_listed_type 1700000000000 (3 # 4) _ _);
    vm_compute; [discriminate | reflexivity].
Defined.

Lemma stored_type_is_joined_with_witness :
  GameRoom.mount (Lobby.game_props (JS.lit "den") (JS.lit "debate"))
  = (GameRoom.init,
     [GameRoom.join_room (Some (JS.lit "den")) (JS.lit "debate")]).
Proof.
  exact (proj1 (stored_type_is_joined_with [] Lobby.ClickCreateRoom
                  (JS.lit "debate") (JS.lit "den") eq_refl)).
Defined.

(** * The error boundaries *)

Section BoundaryFacts.
Import JS.
Import ErrorBoundary.

Variable env : NODE_ENV.
Variable p : Props.

Lemma onError_calls_app o1 o2 :
  onError_calls (o1 ++ o2) = onError_calls o1 ++ onError_calls o2.
Proof. apply omap_app. Qed.

Lemma step_counts s e :
  errorCount (step env p s e).1
  = errorCount s + (if is_caught e then 1 else 0)
  ∧ onError_calls (step env p s e).2
    = (if onError p then caught_of [e] else []).
Proof.
  unfold step. destruct e as [err i| | |]; simpl.
  - split; [done|]. rewrite !onError_calls_app.
    destruct env, (onError p); done.
  - case_match; simpl; (split; [lia | by destruct (onError p)]).
  - case_match; simpl; (split; [lia | by destruct (onError p)]).
  - case_match; simpl; (split; [lia | by destruct (onError p)]).
Qed.

(** X17. Every error caught in a session is counted, and handed to
    [onError] when there is one, exactly once and in order, whatever
    happens in between: "Try Again" clears the error shown but not the
    count.  So the warning about multiple errors is on the default screen
    as soon as more than two errors were caught since the boundary was
    mounted, even when each was dismissed. *)
Theorem errors_are_counted_and_reported (s : State) (es : list Event) :
  errorCount (run env p s es).1
  = errorCount s + Z.of_nat (length (caught_of es))
  ∧ onError_calls (run env p s es).2
    = (if onError p then caught_of es else [])
  ∧ (∀ d w, render env p (run env p init es).1 = DefaultScreen d w →
       w = bool_decide (2 < length (caught_of es))%nat).
Proof.
  assert (H : ∀ s0,
    errorCount (run env p s0 es).1
    = errorCount s0 + Z.of_nat (length (caught_of es))
    ∧ onError_calls (run env p s0 es).2
      = (if onError p then caught_of es else [])).
  { induction es as [|e es' IH]; intros s0; simpl.
    - split; [lia | by destruct (onError p)].
    - destruct (step_counts s0 e) as [H1 H2].
      destruct (step env p s0 e) as [s1 o1]; simpl in *.
      destruct (IH s1) as [H3 H4].
      destruct (run env p s1 es') as [s2 o2]; simpl in *.
      rewrite onError_calls_app, H2, H3, H4, H1.
      split.
      + destruct e; simpl; lia.
      + destruct (onError p); [|done]. by destruct e. }
  destruct (H s) as [H1 H2]. split; [done|]. split; [done|].
  intros d w. unfold render. destruct (H init) as [Hc _].
  destruct (hasError _); [|done].
  assert (Hw : default_screen env (run env p init es).1 = DefaultScreen d w →
               w = (2 <? errorCount (run env p init es).1))
    by (by intros [= _ <-]).
  intros Hr.
  assert (Hd : w = (2 <? errorCount (run env p init es).1)).
  { destruct (fallback p) as [f|]; [destruct (truthy_str f); [done|]|];
      by apply Hw. }
  rewrite Hd, Hc. simpl. rewrite Z.add_0_l.
  destruct (Z.ltb_spec 2 (Z.of_nat (length (caught_of es)))).
  - symmetry. apply bool_decide_eq_true_2. lia.
  - symmetry. apply bool_decide_eq_false_2. lia.
Qed.

Lemma step_under_fallback f s e :
  fallback p = Some f → truthy_str f = true → hasError s = true →
  hasError (step env p s e).1 = true
  ∧ Forall (fun x => x ≠ reload ∧ ∀ h, x ≠ go_to h) (step env p s e).2.
Proof.
  intros Hf Ht Hs. unfold step, enabled, render. rewrite Hs, Hf, Ht.
  destruct e as [err i| | |]; simpl; try (split; [done | constructor]).
  split; [done|]. repeat (apply Forall_app; split).
  - destruct env; repeat constructor; done.
  - destruct (onError p); repeat constructor; done.
  - destruct env; repeat constructor; done.
Qed.

(** X18. Leaving the error screen.  On the default screen "Try Again"
    brings the children back, forgetting the error but not how many there
    were.  Under a fallback given by the caller, and truthy, there is no
    way back: once an error is caught the fallback stays, whatever happens,
    and the page is neither reloaded nor sent elsewhere.  A fallback that is
    the empty text counts as none: the default screen is shown. *)
Theorem leaving_the_error_screen (s : State) (es : list Event) :
  (∀ d w, render env p s = DefaultScreen d w →
     let s' := (step env p s ClickTryAgain).1 in
     render env p s' = Children ∧ error s' = None ∧ errorInfo s' = None
     ∧ errorCount s' = errorCount s)
  ∧ (∀ f, fallback p = Some f → truthy_str f = true → hasError s = true →
       render env p (run env p s es).1 = Fallback f
       ∧ Forall (fun x => x ≠ reload ∧ ∀ h, x ≠ go_to h)
                (run env p s es).2)
  ∧ (fallback p = Some [] → hasError s = true →
       render env p s = default_screen env s).
Proof.
  split; [|split].
  - intros d w Hr. unfold step, enabled. rewrite Hr. simpl. done.
  - intros f Hf Ht. revert s.
    induction es as [|e es' IH]; intros s Hs; simpl.
    + split; [|constructor]. unfold render. by rewrite Hs, Hf, Ht.
    + destruct (step_under_fallback f s e Hf Ht Hs) as [H1 H2].
      destruct (step env p s e) as [s1 o1]; simpl in *.
      destruct (IH s1 H1) as [H3 H4].
      destruct (run env p s1 es') as [s2 o2]; simpl in *.
      split; [done|]. by apply Forall_app.
  - intros Hf Hs. unfold render. by rewrite Hs, Hf.
Qed.

(** X19. The game's boundary, once it has caught an error, shows the
    error for good: from its first state it shows the error exactly when
    some error was caught in the session, and it never counts them. *)
Theorem game_boundary_stays_in_error (es : list GameEvent) :
  (game_render (game_run init es).1 = GameError
   ↔ Exists (fun e => ∃ err i, e = GameCaught err i) es)
  ∧ errorCount (game_run init es).1 = 0.
Proof.
  assert (Hstay : ∀ l s, hasError s = true →
            hasError (game_run s l).1 = true
            ∧ errorCount (game_run s l).1 = errorCount s).
  { induction l as [|e l IH]; intros s Hs; simpl; [done|].
    destruct e as [err i|]; simpl.
    - destruct (IH {| hasError := true; error := Some err;
                      errorInfo := Some i; errorCount := errorCount s |}
                   eq_refl) as [H1 H2].
      by destruct (game_run _ l).
    - unfold game_render. rewrite Hs.
      destruct (IH s Hs) as [H1 H2]. by destruct (game_run s l). }
  assert (Hgen : ∀ l s, hasError s = false →
            (hasError (game_run s l).1 = true
             ↔ Exists (fun e => ∃ err i, e = GameCaught err i) l)
            ∧ errorCount (game_run s l).1 = errorCount s).
  { induction l as [|e l IH]; intros s Hs; simpl.
    - split; [|done]. rewrite Hs. split; [done | by inversion 1].
    - destruct e as [err i|]; simpl.
      + destruct (Hstay l {| hasError := true; error := Some err;
                             errorInfo := Some i;
                             errorCount := errorCount s |} eq_refl)
          as [H1 H2].
        destruct (game_run _ l) as [s2 o2]; simpl in *.
        split; [|done]. split; [|done].
        intros _. apply Exists_cons_hd. by eexists _, _.
      + unfold game_render. rewrite Hs.
        destruct (IH s Hs) as [H1 H2].
        destruct (game_run s l) as [s2 o2]; simpl in *.
        split; [|done]. rewrite H1. split.
        * by apply Exists_cons_tl.
        * inversion 1 as [? ? (? & ? & [=]) | ]; done. }
  destruct (Hgen es init eq_refl) as [H1 H2]. split; [|done].
  unfold game_render. rewrite <- H1.
  destruct (hasError _); split; done.
Qed.

End BoundaryFacts.

(** * The achievements *)

Section ProfileFacts.
Import Profile.

Lemma achieved (u : User) (st : Stats) (a : Achievement) :
  a ∈ achievements (with_stats u st)
  ↔ match a with
    | Regular_Player => 10 ≤ games_played st
    | Master_Deceiver => 5 ≤ human_wins st
    | AI_Detective => (7 # 10 <= detection_accuracy st)%Q
    | Veteran => 50 ≤ games_played st
    end.
Proof.
  unfold achievements. simpl. rewrite !elem_of_app.
  assert (Hq : Qle_bool (7 # 10) (detection_accuracy st) = true
               ↔ (7 # 10 <= detection_accuracy st)%Q)
    by apply Qle_bool_iff.
  destruct (Z.leb_spec 10 (games_played st));
    destruct (Z.leb_spec 5 (human_wins st));
    destruct (Qle_bool (7 # 10) (detection_accuracy st));
    destruct (Z.leb_spec 50 (games_played st));
    rewrite ?list_elem_of_singleton, ?elem_of_nil;
    destruct a; split; intros; try lia; try done;
    try (by apply Hq); try (by (assert (false = true) by (by apply Hq)));
    intuition done.
Qed.

(** X20. Whoever has the Veteran badge has the Regular Player badge; no
    badge is lost when games, wins or accuracy go up; and a user without
    statistics has no badge. *)
Theorem badges_are_kept (u : User) (a b : Stats) :
  (Veteran ∈ achievements u → Regular_Player ∈ achievements u)
  ∧ (at_least a b →
     ∀ x, x ∈ achievements (with_stats u b) →
          x ∈ achievements (with_stats u a))
  ∧ (stats u = None → achievements u = []).
Proof.
  split; [|split].
  - destruct u as [i n [st|]]; [|by intros ?%elem_of_nil].
    change {| id := i; username := n; stats := Some st |}
      with (with_stats {| id := i; username := n; stats := None |} st).
    rewrite !achieved. lia.
  - intros (Hg & Hw & Hacc) x. rewrite !achieved.
    destruct x; try lia. intros H. by eapply Qle_trans.
  - intros Hn. unfold achievements. by rewrite Hn.
Qed.

End ProfileFacts.
